(** * The storage host of siacore: contract negotiation and proof scheduling

    A shallow embedding of [siacore/host.go].  The host state, the contract
    validator [considerContract], the negotiation handler
    [NegotiateContract], the proof builder front end [createStorageProof]
    and the maintenance driver [storageProofMaintenance] are written as
    state-passing functions over an explicit [Environment]; the wallet, the
    consensus state, the hash library and the wire encoding are collaborators
    whose operations are the fields of the class [External]. *)

From Stdlib Require Import ZArith List Lia.
From stdpp Require Import base gmap strings list fin_maps pretty.

Local Open Scope Z_scope.

(** ** Machine integers

    The [consensus] package declares [BlockHeight] and [Currency] as
    [uint64]; [FileSize] and [Tolerance] are [uint64] as well (the validator
    compares the file size with [uint64(e.host.SpaceRemaining)]).  The host's
    [SpaceRemaining] is an [int64] and [Index] an [int].  All of them are
    carried by [Z], with Go's wrap-around written out. *)

Module U64.
Definition modulus : Z := 2 ^ 64.
Definition wrap (z : Z) : Z := z mod modulus.
Definition add (a b : Z) : Z := wrap (a + b).
Definition sub (a b : Z) : Z := wrap (a - b).
Definition mul (a b : Z) : Z := wrap (a * b).
Definition in_range (z : Z) : Prop := 0 <= z < modulus.
End U64.

Module I64.
Definition half : Z := 2 ^ 63.
(** Two's complement reduction into [-2^63, 2^63). *)
Definition wrap (z : Z) : Z := (z + half) mod (2 ^ 64) - half.
Definition add (a b : Z) : Z := wrap (a + b).
Definition sub (a b : Z) : Z := wrap (a - b).
(** The conversion [uint64(x)] of an [int64]. *)
Definition to_u64 (z : Z) : Z := U64.wrap z.
End I64.

Definition BlockHeight := Z.
Definition Currency := Z.
Definition Hash := Z.          (* hash.Hash, a 32-byte array read as a number *)
Definition CoinAddress := Hash.
Definition ContractID := Hash.
Definition BlockID := Hash.
Definition error := string.

(** ** Types of the consensus package used by the host *)

Record FileContract := {
  ContractFund : Currency;
  FileMerkleRoot : Hash;
  FileSize : Z;
  Start : BlockHeight;
  End_ : BlockHeight;
  ChallengeWindow : BlockHeight;
  Tolerance : Z;
  ValidProofPayout : Currency;
  ValidProofAddress : CoinAddress;
  MissedProofPayout : Currency;
  MissedProofAddress : CoinAddress
}.

Record StorageProof := {
  sp_ContractID : ContractID;
  sp_WindowIndex : BlockHeight;
  sp_Segment : list Byte.byte;
  sp_HashSet : list Hash
}.

(** The zero value of [consensus.StorageProof], returned next to an error. *)
Definition zeroStorageProof : StorageProof :=
  {| sp_ContractID := 0; sp_WindowIndex := 0; sp_Segment := []; sp_HashSet := [] |}.

(** Inputs, outputs and signatures are opaque to the host: it only counts
    the inputs and asks the wallet to sign them. *)
Record Transaction := {
  Inputs : list Z;
  MinerFees : list Currency;
  Outputs : list Z;
  FileContracts : list FileContract;
  StorageProofs : list StorageProof;
  Signatures : list Z
}.

Definition emptyTransaction : Transaction :=
  {| Inputs := []; MinerFees := []; Outputs := []; FileContracts := [];
     StorageProofs := []; Signatures := [] |}.

(** ** Host data *)

Definition AcceptContractResponse : string := "accept".
Definition StorageProofReorgDepth : Z := 6.

Record HostAnnouncement := {
  TotalStorage : Z;
  MinFilesize : Z;
  MaxFilesize : Z;
  MinDuration : BlockHeight;
  MaxDuration : BlockHeight;
  MinChallengeWindow : BlockHeight;
  MaxChallengeWindow : BlockHeight;
  MinTolerance : Z;
  Price : Currency;
  Burn : Currency;
  CoinAddress_ : CoinAddress
}.

Definition zeroAnnouncement : HostAnnouncement :=
  {| TotalStorage := 0; MinFilesize := 0; MaxFilesize := 0; MinDuration := 0;
     MaxDuration := 0; MinChallengeWindow := 0; MaxChallengeWindow := 0;
     MinTolerance := 0; Price := 0; Burn := 0; CoinAddress_ := 0 |}.

Record ContractEntry := {
  ID : ContractID;
  Contract : FileContract
}.

Record Host := {
  Settings : HostAnnouncement;
  SpaceRemaining : Z;
  Files : gmap Z string;
  Index : Z;
  ForwardContracts : gmap Z (list ContractEntry);
  BackwardContracts : gmap Z (list ContractEntry)
}.

Definition CreateHost : Host :=
  {| Settings := zeroAnnouncement; SpaceRemaining := 0; Files := ∅; Index := 0;
     ForwardContracts := ∅; BackwardContracts := ∅ |}.

(** Reading a Go map of slices: a missing key reads as the nil slice. *)
Definition bucket (m : gmap Z (list ContractEntry)) (h : BlockHeight) : list ContractEntry :=
  default [] (m !! h).

(** [m[h] = append(m[h], ce)]. *)
Definition bucket_append (m : gmap Z (list ContractEntry)) (h : BlockHeight) (ce : ContractEntry)
  : gmap Z (list ContractEntry) :=
  <[h := bucket m h ++ [ce]]> m.

(** ** Collaborators

    The wallet, the consensus state, the hash library and the decoder are
    not part of the host.  Each call the host makes is a field here.  Go's
    [(value, err)] results are pairs with an [option error]. *)

Class External := {
  Wallet : Type;
  (** [wallet.FundTransaction(amount, &t)]: on success the wallet appends
      inputs and outputs to [t]; the result lists them. *)
  FundTransaction : Wallet -> Currency -> Transaction -> Wallet * (error + (list Z * list Z));
  (** [wallet.SignTransaction(&t, CoveredFields{WholeTransaction: true}, i)]:
      on success one signature is appended to [t]. *)
  SignTransaction : Wallet -> Transaction -> nat -> Wallet * (error + Z);
  (** [state.ValidTransaction(t)] and [e.AcceptTransaction(t)]. *)
  ValidTransaction : Transaction -> option error;
  AcceptTransaction : Transaction -> option error;
  (** [t.FileContractID(i)]. *)
  FileContractID : Transaction -> nat -> ContractID;
  (** [hash.CalculateSegments], [hash.ReaderMerkleRoot],
      [hash.BuildReaderProof] over the bytes of an opened file. *)
  CalculateSegments : Z -> Z;
  ReaderMerkleRoot : list Byte.byte -> Z -> Hash * option error;
  BuildReaderProof : list Byte.byte -> Z -> Z -> list Byte.byte * list Hash * option error;
  (** [contract.WindowIndex(height)] and
      [state.StorageProofSegmentIndex(id, windowIndex)]. *)
  WindowIndex : FileContract -> BlockHeight -> BlockHeight * option error;
  StorageProofSegmentIndex : ContractID -> BlockHeight -> Z * option error;
  (** [encoding.Unmarshal(data, &t)]. *)
  Unmarshal : list Byte.byte -> Transaction * option error
}.

(** A call either returns or panics (index out of range). *)
Inductive outcome (A : Type) : Type :=
  | Return (a : A)
  | Panic (msg : string).
Arguments Return {A} a.
Arguments Panic {A} msg.

(** What the outside world does during one negotiation session. *)
Record Session := {
  (** error returned by [encoding.WriteObject(conn, _)] *)
  conn_write : string -> option error;
  (** error returned by [os.Create] *)
  create_result : option error;
  (** the bytes the connection delivers before it ends or fails *)
  upload : list Byte.byte;
  (** the failure that ended the transfer, when it was not a plain EOF *)
  copy_fault : option error;
  (** error returned by [file.Seek(0, 0)] *)
  seek_result : option error;
  (** [e.Height()] once the upload has finished *)
  height_after_upload : BlockHeight
}.

Section Host.
Context `{External}.

Record Environment := {
  height : BlockHeight;          (* e.Height(), read from the consensus state *)
  wallet : Wallet;
  host : Host;
  hostDir : string;
  disk : gmap string (list Byte.byte)   (* the files under the host's paths *)
}.

Definition set_host (e : Environment) (h : Host) : Environment :=
  {| height := height e; wallet := wallet e; host := h; hostDir := hostDir e; disk := disk e |}.
Definition set_wallet (e : Environment) (w : Wallet) : Environment :=
  {| height := height e; wallet := w; host := host e; hostDir := hostDir e; disk := disk e |}.
Definition set_disk (e : Environment) (d : gmap string (list Byte.byte)) : Environment :=
  {| height := height e; wallet := wallet e; host := host e; hostDir := hostDir e; disk := d |}.
Definition set_height (e : Environment) (h : BlockHeight) : Environment :=
  {| height := h; wallet := wallet e; host := host e; hostDir := hostDir e; disk := disk e |}.

Definition HostSettings (e : Environment) : HostAnnouncement := Settings (host e).

Definition SetHostSettings (e : Environment) (ha : HostAnnouncement) : Environment :=
  let h := host e in
  set_host e
    {| Settings := ha;
       SpaceRemaining :=
         I64.add (SpaceRemaining h) (I64.sub (TotalStorage ha) (TotalStorage (Settings h)));
       Files := Files h; Index := Index h;
       ForwardContracts := ForwardContracts h;
       BackwardContracts := BackwardContracts h |}.

Definition HostSpaceRemaining (e : Environment) : Z := SpaceRemaining (host e).

(** *** considerContract *)

Definition add_funding (t : Transaction) (ins outs : list Z) : Transaction :=
  {| Inputs := Inputs t ++ ins; MinerFees := MinerFees t; Outputs := Outputs t ++ outs;
     FileContracts := FileContracts t; StorageProofs := StorageProofs t;
     Signatures := Signatures t |}.

Definition add_signature (t : Transaction) (sig : Z) : Transaction :=
  {| Inputs := Inputs t; MinerFees := MinerFees t; Outputs := Outputs t;
     FileContracts := FileContracts t; StorageProofs := StorageProofs t;
     Signatures := Signatures t ++ [sig] |}.

(** [for i := existingInputs; i < len(nt.Inputs); i++]: stop at the first
    signing error. *)
Fixpoint signNewInputs (w : Wallet) (t : Transaction) (idx : list nat)
  : Wallet * Transaction * option error :=
  match idx with
  | [] => (w, t, None)
  | i :: rest =>
      match SignTransaction w t i with
      | (w', inr sig) => signNewInputs w' (add_signature t sig) rest
      | (w', inl err) => (w', t, Some err)
      end
  end.

Definition incorrectSizeError (fileSize lo hi : Z) : error :=
  "file is of incorrect size - filesize " +:+ pretty fileSize +:+
  ", min " +:+ pretty lo +:+ ", max " +:+ pretty hi.

Definition emptyAddress : CoinAddress := 0.

Definition considerContract (e : Environment) (t : Transaction)
  : outcome (Environment * Transaction * option error) :=
  let nt := t in
  match FileContracts nt with
  | [] => Panic "index out of range"
  | fc :: _ =>
    let st := Settings (host e) in
    let contractDuration := U64.sub (End_ fc) (Start fc) in
    let fullDuration := U64.sub (End_ fc) (height e) in
    let fileSize := FileSize fc in
    if negb (length (FileContracts nt) =? 1)%nat then
      Return (e, nt, Some "transaction must have exactly one contract")
    else if (fileSize <? MinFilesize st) || (MaxFilesize st <? fileSize) then
      Return (e, nt, Some (incorrectSizeError fileSize (MinFilesize st) (MaxFilesize st)))
    else if I64.to_u64 (SpaceRemaining (host e)) <? fileSize then
      Return (e, nt, Some "host is at capacity and can not take more files.")
    else if (fullDuration <? MinDuration st) || (MaxDuration st <? fullDuration) then
      Return (e, nt, Some "contract duration is out of bounds")
    else if (ChallengeWindow fc <? MinChallengeWindow st)
            || (MaxChallengeWindow st <? ChallengeWindow fc) then
      Return (e, nt, Some "challenges frequency is too often")
    else if Tolerance fc <? MinTolerance st then
      Return (e, nt, Some "tolerance is too low")
    else if negb (ValidProofAddress fc =? CoinAddress_ st) then
      Return (e, nt, Some "coins are not paying out to correct address")
    else
    let requiredSize := U64.mul (U64.mul (Price st) fileSize) (ChallengeWindow fc) in
    if ValidProofPayout fc <? requiredSize then
      Return (e, nt, Some "valid proof payout is too low")
    else if negb (MissedProofAddress fc =? emptyAddress) then
      Return (e, nt, Some "burn payout needs to go to the empty address")
    else
    let maxBurn := U64.mul (U64.mul (Burn st) fileSize) (ChallengeWindow fc) in
    if maxBurn <? MissedProofPayout fc then
      Return (e, nt, Some "burn payout is too high for a missed proof.")
    else
    let requiredFund :=
      U64.mul (U64.mul (U64.add (Burn st) (Price st)) fileSize) contractDuration in
    if ContractFund fc <? requiredFund then
      Return (e, nt, Some "ContractFund does not cover the entire duration of the contract.")
    else
    let existingInputs := length (Inputs nt) in
    match FundTransaction (wallet e)
            (U64.mul (U64.mul (Burn st) fileSize) contractDuration) nt with
    | (w1, inl _) => Return (set_wallet e w1, nt, Some "Host is having trouble - sorry!")
    | (w1, inr (ins, outs)) =>
      let nt1 := add_funding nt ins outs in
      match signNewInputs w1 nt1
              (seq existingInputs (length (Inputs nt1) - existingInputs)) with
      | (w2, nt2, Some err) => Return (set_wallet e w2, nt2, Some err)
      | (w2, nt2, None) =>
        match ValidTransaction nt2 with
        | Some _ =>
            Return (set_wallet e w2, nt2,
                    Some "post-verified transaction not valid - most likely a client error, but could be a host error too")
        | None => Return (set_wallet e w2, nt2, None)
        end
      end
    end
  end.

(** *** NegotiateContract *)

(** [io.CopyN(file, conn, n)]: a non-positive [n] copies nothing and
    reports no error; otherwise fewer than [n] delivered bytes leave a
    partial file and an error. *)
Definition copyN (s : Session) (n : Z) : list Byte.byte * option error :=
  if n <=? 0 then ([], None)
  else if Z.of_nat (length (upload s)) <? n then
    (upload s, Some (default "EOF" (copy_fault s)))
  else (take (Z.to_nat n) (upload s), None).

(** [e.host.Files[root] = strconv.Itoa(e.host.Index); e.host.Index++]. *)
Definition register_file (h : Host) (root : Hash) : Host :=
  {| Settings := Settings h; SpaceRemaining := SpaceRemaining h;
     Files := <[root := pretty (Index h)]> (Files h);
     Index := I64.add (Index h) 1;
     ForwardContracts := ForwardContracts h;
     BackwardContracts := BackwardContracts h |}.

Definition set_forward (h : Host) (m : gmap Z (list ContractEntry)) : Host :=
  {| Settings := Settings h; SpaceRemaining := SpaceRemaining h; Files := Files h;
     Index := Index h; ForwardContracts := m; BackwardContracts := BackwardContracts h |}.

Definition set_backward (h : Host) (m : gmap Z (list ContractEntry)) : Host :=
  {| Settings := Settings h; SpaceRemaining := SpaceRemaining h; Files := Files h;
     Index := Index h; ForwardContracts := ForwardContracts h; BackwardContracts := m |}.

(** The deferred [os.Remove(filename)], run when the session ends with an
    error. *)
Definition abort_upload (e : Environment) (filename : string) (err : error)
  : Environment * option error :=
  (set_disk e (delete filename (disk e)), Some err).

(** The result carries the objects written to the connection, in order. *)
Definition NegotiateContract (e : Environment) (s : Session) (data : list Byte.byte)
  : outcome (Environment * list string * option error) :=
  match Unmarshal data with
  | (_, Some err) => Return (e, [], Some err)
  | (t0, None) =>
    match considerContract e t0 with
    | Panic msg => Panic msg
    | Return (e1, _, Some reason) => Return (e1, [reason], conn_write s reason)
    | Return (e1, t, None) =>
      match conn_write s AcceptContractResponse with
      | Some err => Return (e1, [AcceptContractResponse], Some err)
      | None =>
        let sent := [AcceptContractResponse] in
        let filename := hostDir e1 +:+ pretty (Index (host e1)) in
        match create_result s with
        | Some err => Return (e1, sent, Some err)
        | None =>
          match FileContracts t with
          | [] => Panic "index out of range"
          | fc :: _ =>
            let e2 := set_disk e1 (<[filename := []]> (disk e1)) in
            let '(content, copy_err) := copyN s (I64.wrap (FileSize fc)) in
            let e3 := set_disk e2 (<[filename := content]> (disk e2)) in
            let finish (r : Environment * option error) := Return (r.1, sent, r.2) in
            match copy_err with
            | Some err => finish (abort_upload e3 filename err)
            | None =>
              match seek_result s with
              | Some err => finish (abort_upload e3 filename err)
              | None =>
                match ReaderMerkleRoot content (CalculateSegments (FileSize fc)) with
                | (_, Some err) => finish (abort_upload e3 filename err)
                | (merkleRoot, None) =>
                  if negb (merkleRoot =? FileMerkleRoot fc) then
                    finish (abort_upload e3 filename "uploaded file has wrong merkle root")
                  else
                  let e4 := set_height e3 (height_after_upload s) in
                  if U64.sub (Start fc) 2 <=? height e4 then
                    finish (abort_upload e4 filename
                              "file not uploaded in time, refusing to go forward with contract")
                  else
                  let e5 := set_host e4 (register_file (host e4) (FileMerkleRoot fc)) in
                  match AcceptTransaction t with
                  | Some err => finish (abort_upload e5 filename err)
                  | None =>
                    let firstProof := U64.add (Start fc) StorageProofReorgDepth in
                    let entry := {| ID := FileContractID t 0; Contract := fc |} in
                    let fwd := bucket_append (ForwardContracts (host e5)) firstProof entry in
                    Return (set_host e5 (set_forward (host e5) fwd), sent, None)
                  end
                end
              end
            end
          end
        end
      end
    end
  end.

(** *** RetrieveFile *)

(** Returns the bytes streamed to the connection. *)
Definition RetrieveFile (e : Environment) (merkle : Hash) : list Byte.byte * option error :=
  match Files (host e) !! merkle with
  | None => ([], Some "no record of that file")
  | Some filename =>
    match disk e !! (hostDir e +:+ filename) with
    | None => ([], Some "open: no such file or directory")
    | Some content => (content, None)
    end
  end.

(** *** createStorageProof *)

(** [os.Open(path)] over the modelled disk. *)
Definition os_Open (e : Environment) (path : string) : list Byte.byte * option error :=
  match disk e !! path with
  | Some content => (content, None)
  | None => ([], Some "open: no such file or directory")
  end.

Definition createStorageProof (e : Environment) (contractEntry : ContractEntry)
    (stateHeight : BlockHeight) : StorageProof * option error :=
  (* filename, ok := e.host.Files[root]: the empty string when absent *)
  let lookup := Files (host e) !! FileMerkleRoot (Contract contractEntry) in
  let filename := default "" lookup in
  let err0 : option error :=
    match lookup with None => Some "no record of that file" | Some _ => None end in
  (* file, err := os.Open(...) assigns the same err *)
  let '(file, err1) := os_Open e (hostDir e +:+ filename) in
  match err1 with
  | Some err => (zeroStorageProof, Some err)
  | None =>
    let numSegments := CalculateSegments (FileSize (Contract contractEntry)) in
    match WindowIndex (Contract contractEntry) stateHeight with
    | (_, Some err) => (zeroStorageProof, Some err)
    | (windowIndex, None) =>
      match StorageProofSegmentIndex (ID contractEntry) windowIndex with
      | (_, Some err) => (zeroStorageProof, Some err)
      | (segmentIndex, None) =>
        match BuildReaderProof file numSegments segmentIndex with
        | (_, _, Some err) => (zeroStorageProof, Some err)
        | (base, hashSet, None) =>
          ({| sp_ContractID := ID contractEntry; sp_WindowIndex := windowIndex;
              sp_Segment := base; sp_HashSet := hashSet |}, None)
        end
      end
    end
  end.

(** *** storageProofMaintenance *)

(** Rewind phase, inner loop: rebuild the proofs of one backward bucket; a
    failed proof is logged and skipped. *)
Fixpoint regenerate (e : Environment) (h : BlockHeight) (entries : list ContractEntry)
    (proofs : list StorageProof) : list StorageProof :=
  match entries with
  | [] => proofs
  | contractEntry :: rest =>
    match createStorageProof e contractEntry h with
    | (_, Some _) => regenerate e h rest proofs
    | (proof, None) => regenerate e h rest (proofs ++ [proof])
    end
  end.

(** Rewind phase: one backward bucket per rewound block, walking down. *)
Fixpoint rewindPhase (e : Environment) (h : BlockHeight) (rewoundBlocks : list BlockID)
    (proofs : list StorageProof) : BlockHeight * list StorageProof :=
  match rewoundBlocks with
  | [] => (h, proofs)
  | _ :: rest =>
    rewindPhase e (U64.sub h 1) rest
      (regenerate e h (bucket (BackwardContracts (host e)) h) proofs)
  end.

(** [height-StorageProofReorgDepth+1] and [height + ChallengeWindow]. *)
Definition backwardHeight (h : BlockHeight) : BlockHeight :=
  U64.add (U64.sub h StorageProofReorgDepth) 1.

Definition nextProofHeight (h : BlockHeight) (contractEntry : ContractEntry) : BlockHeight :=
  U64.add h (ChallengeWindow (Contract contractEntry)).

(** The schedule update for one entry whose proof was built at [h]. *)
Definition reschedule (hst : Host) (h : BlockHeight) (contractEntry : ContractEntry) : Host :=
  let h1 := set_backward hst
              (bucket_append (BackwardContracts hst) (backwardHeight h) contractEntry) in
  let nextProof := nextProofHeight h contractEntry in
  if nextProof <? End_ (Contract contractEntry) then
    set_forward h1 (bucket_append (ForwardContracts h1) nextProof contractEntry)
  else h1.

(** Whether [createStorageProof] returns without error. *)
Definition proofBuilt (e : Environment) (h : BlockHeight) (contractEntry : ContractEntry) : bool :=
  match (createStorageProof e contractEntry h).2 with
  | None => true
  | Some _ => false
  end.

(** Apply phase, inner loop over the entries that were in the forward
    bucket when the block was reached. *)
Fixpoint proveDue (e : Environment) (h : BlockHeight) (entries : list ContractEntry)
    (proofs : list StorageProof) : Environment * list StorageProof :=
  match entries with
  | [] => (e, proofs)
  | contractEntry :: rest =>
    match createStorageProof e contractEntry h with
    | (_, Some _) => proveDue e h rest proofs
    | (proof, None) =>
      proveDue (set_host e (reschedule (host e) h contractEntry)) h rest (proofs ++ [proof])
    end
  end.

(** One applied block: the inner loop, then [delete(ForwardContracts, height)]. *)
Definition applyBlock (e : Environment) (h : BlockHeight) (proofs : list StorageProof)
  : Environment * list StorageProof :=
  let '(e1, proofs1) := proveDue e h (bucket (ForwardContracts (host e)) h) proofs in
  (set_host e1 (set_forward (host e1) (delete h (ForwardContracts (host e1)))), proofs1).

(** Apply phase: one forward bucket per applied block, walking up. *)
Fixpoint applyPhase (e : Environment) (h : BlockHeight) (appliedBlocks : list BlockID)
    (proofs : list StorageProof) : Environment * BlockHeight * list StorageProof :=
  match appliedBlocks with
  | [] => (e, h, proofs)
  | _ :: rest =>
    let '(e1, proofs1) := applyBlock e h proofs in
    applyPhase e1 (U64.add h 1) rest proofs1
  end.

(** [for i := range txn.Inputs]: signing errors are logged, the loop goes on. *)
Fixpoint signAll (w : Wallet) (t : Transaction) (idx : list nat) : Wallet * Transaction :=
  match idx with
  | [] => (w, t)
  | i :: rest =>
    match SignTransaction w t i with
    | (w', inr sig) => signAll w' (add_signature t sig) rest
    | (w', inl _) => signAll w' t rest
    end
  end.

(** The transaction carrying the accumulated proofs; funding, signing and
    acceptance failures are logged only. *)
Definition submitProofs (e : Environment) (proofs : list StorageProof)
  : Environment * option Transaction :=
  match proofs with
  | [] => (e, None)
  | _ :: _ =>
    let txn := {| Inputs := []; MinerFees := [10]; Outputs := []; FileContracts := [];
                  StorageProofs := proofs; Signatures := [] |} in
    let '(w1, txn1) :=
      match FundTransaction (wallet e) 10 txn with
      | (w, inl _) => (w, txn)
      | (w, inr (ins, outs)) => (w, add_funding txn ins outs)
      end in
    let '(w2, txn2) := signAll w1 txn1 (seq 0 (length (Inputs txn1))) in
    let _ := AcceptTransaction txn2 in
    (set_wallet e w2, Some txn2)
  end.

(** The result is the new environment and the transaction handed to
    [AcceptTransaction], if any. *)
Definition storageProofMaintenance (e : Environment) (initialStateHeight : BlockHeight)
    (rewoundBlocks appliedBlocks : list BlockID) : Environment * option Transaction :=
  let '(h1, proofs1) := rewindPhase e initialStateHeight rewoundBlocks [] in
  let '(e2, _, proofs2) := applyPhase e h1 appliedBlocks proofs1 in
  submitProofs e2 proofs2.

(** ** Reachable environments

    The states a host can be in: a fresh host, then any sequence of settings
    changes, negotiation sessions, chain-height changes and maintenance
    calls. *)
Inductive reachable : Environment -> Prop :=
  | reach_create (e : Environment) :
      host e = CreateHost -> reachable e
  | reach_settings (e : Environment) (ha : HostAnnouncement) :
      reachable e -> reachable (SetHostSettings e ha)
  | reach_height (e : Environment) (h : BlockHeight) :
      reachable e -> reachable (set_height e h)
  | reach_negotiate (e e' : Environment) (s : Session) (data : list Byte.byte)
      (sent : list string) (err : option error) :
      reachable e -> NegotiateContract e s data = Return (e', sent, err) -> reachable e'
  | reach_maintenance (e : Environment) (h : BlockHeight) (rewound applied : list BlockID) :
      reachable e -> reachable (storageProofMaintenance e h rewound applied).1.

(** ** Hosts in step with the chain

    [in_sync e H]: the host of [e] has been driven by the chain-update
    callback as its contract demands, once per transition, in order and
    without gaps, and the chain is now at height [H].  A fresh host is in
    step with any height.  A maintenance call is made at the current height,
    rewinds no more blocks than the chain has, and moves the height by the
    blocks applied minus those rewound.  A session registers its contract
    while the chain is at [H] (the height the lateness check reads); the
    [height] field only matters as the height the validator read when the
    session began.  Contracts start at height 2 or later, so that [Start - 2]
    does not underflow, and heights and challenge windows are below 2^63. *)
Inductive in_sync : Environment -> BlockHeight -> Prop :=
  | sync_create (e : Environment) (H0 : BlockHeight) :
      host e = CreateHost -> 0 <= H0 < 2 ^ 63 -> in_sync e H0
  | sync_settings (e : Environment) (H0 : BlockHeight) (ha : HostAnnouncement) :
      in_sync e H0 -> in_sync (SetHostSettings e ha) H0
  | sync_height (e : Environment) (H0 h : BlockHeight) :
      in_sync e H0 -> in_sync (set_height e h) H0
  | sync_negotiate (e e' : Environment) (H0 : BlockHeight) (s : Session)
      (data : list Byte.byte) (sent : list string) (err : option error) :
      in_sync e H0 ->
      height_after_upload s = H0 ->
      (forall fc rest, FileContracts (Unmarshal data).1 = fc :: rest ->
         2 <= Start fc < 2 ^ 63 /\ 0 <= ChallengeWindow fc < 2 ^ 63) ->
      NegotiateContract e s data = Return (e', sent, err) ->
      in_sync e' H0
  | sync_maintenance (e : Environment) (H0 : BlockHeight) (rewound applied : list BlockID) :
      in_sync e H0 ->
      Z.of_nat (length rewound) <= H0 ->
      H0 - Z.of_nat (length rewound) + Z.of_nat (length applied) < 2 ^ 63 ->
      in_sync (storageProofMaintenance e H0 rewound applied).1
        (H0 - Z.of_nat (length rewound) + Z.of_nat (length applied)).

End Host.

(** ** A concrete set of collaborators

    A wallet that funds every transaction with one input and one output and
    signs everything, a consensus state that finds every transaction valid,
    a decoder that yields [proposal], and a hash library whose "root" of a
    file is its length.  [acceptResult] is what [AcceptTransaction] answers. *)
Definition scriptedExternal (proposal : Transaction) (acceptResult : option error) : External :=
  {| Wallet := unit;
     FundTransaction := fun w _ _ => (w, inr ([1], [2]));
     SignTransaction := fun w _ i => (w, inr (Z.of_nat i));
     ValidTransaction := fun _ => None;
     AcceptTransaction := fun _ => acceptResult;
     FileContractID := fun t i => 7000 + Z.of_nat i;
     CalculateSegments := fun n => (n + 63) / 64;
     ReaderMerkleRoot := fun data _ => (Z.of_nat (length data), None);
     BuildReaderProof := fun data _ i => (take 64 (drop (Z.to_nat i * 64) data), [], None);
     WindowIndex := fun fc h => ((h - Start fc) / ChallengeWindow fc, None);
     StorageProofSegmentIndex := fun _ _ => (0, None);
     Unmarshal := fun _ => (proposal, None) |}.

(** The settings and the proposal of the acceptance scenario, at chain
    height 100; the payout address is 65. *)
Definition scenarioSettings : HostAnnouncement :=
  {| TotalStorage := 600; MinFilesize := 1; MaxFilesize := 1000; MinDuration := 10;
     MaxDuration := 1000; MinChallengeWindow := 5; MaxChallengeWindow := 100;
     MinTolerance := 1; Price := 1; Burn := 1; CoinAddress_ := 65 |}.

Definition contractWith (start : BlockHeight) (fund : Currency) : FileContract :=
  {| ContractFund := fund; FileMerkleRoot := 500; FileSize := 500;
     Start := start; End_ := 220; ChallengeWindow := 10; Tolerance := 2;
     ValidProofPayout := 5000; ValidProofAddress := 65;
     MissedProofPayout := 0; MissedProofAddress := 0 |}.

Definition scenarioContract : FileContract := contractWith 120 100000.

Definition proposalOf (contracts : list FileContract) : Transaction :=
  {| Inputs := [9]; MinerFees := []; Outputs := []; FileContracts := contracts;
     StorageProofs := []; Signatures := [] |}.

Definition scenarioEnvironment (E : External) (w : @Wallet E) (h : BlockHeight)
  : @Environment E :=
  SetHostSettings
    {| height := h; wallet := w; host := CreateHost; hostDir := "host/"; disk := ∅ |}
    scenarioSettings.

(** A session in which the client behaves: every write goes through and
    the 500 promised bytes arrive; the chain is at [h] when they have. *)
Definition goodSession (h : BlockHeight) : Session :=
  {| conn_write := fun _ => None; create_result := None;
     upload := repeat Byte.x2a 500; copy_fault := None; seek_result := None;
     height_after_upload := h |}.

(** The worlds of the scenarios: the transaction pool takes the finalized
    transaction, or refuses it. *)
Definition acceptingWorld : External := scriptedExternal (proposalOf [scenarioContract]) None.
Definition refusingWorld : External :=
  scriptedExternal (proposalOf [scenarioContract]) (Some "transaction refused").
(** A proposal whose contract starts at height 1, offered at height 0. *)
Definition earlyContract : FileContract := contractWith 1 219000.
Definition earlyWorld : External := scriptedExternal (proposalOf [earlyContract]) None.

(** The environment a session leaves behind. *)
Definition negotiated (E : External) (e : @Environment E) (s : Session) : @Environment E :=
  match @NegotiateContract E e s [] with
  | Return (e', _, _) => e'
  | Panic _ => e
  end.

Definition freshHost : @Environment acceptingWorld := scenarioEnvironment acceptingWorld tt 100.

(** The host after the accepted scenario negotiation: the file is stored as
    [host/0] and the entry is scheduled at height 126. *)
Definition afterNegotiation : @Environment acceptingWorld :=
  negotiated acceptingWorld freshHost (goodSession 101).

Definition scenarioEntry : ContractEntry := {| ID := 7000; Contract := scenarioContract |}.

(** The same host after its disk lost the stored file. *)
Definition afterDiskLoss : @Environment acceptingWorld := set_disk afterNegotiation ∅.

(** A proposal whose file is larger than the settings allow. *)
Definition oversizedContract : FileContract :=
  {| ContractFund := 100000; FileMerkleRoot := 500; FileSize := 2000;
     Start := 120; End_ := 220; ChallengeWindow := 10; Tolerance := 2;
     ValidProofPayout := 5000; ValidProofAddress := 65;
     MissedProofPayout := 0; MissedProofAddress := 0 |}.

(** A host that knows no file, whose directory prefix names a file. *)
Definition prefixHost : @Environment acceptingWorld :=
  @Build_Environment acceptingWorld 126 tt CreateHost "host"
    {[ "host" := repeat Byte.x00 64 ]}.

(** The finalized scenario transaction: the wallet's input and output are
    appended and the added input is signed. *)
Definition scenarioFinalized : Transaction :=
  {| Inputs := [9; 1]; MinerFees := []; Outputs := [2];
     FileContracts := [scenarioContract]; StorageProofs := []; Signatures := [1] |}.

(** Settings with less storage than the scenario contract needs, and
    settings with more than the scenario has. *)
Definition crampedSettings : HostAnnouncement :=
  {| TotalStorage := 100; MinFilesize := 1; MaxFilesize := 1000; MinDuration := 10;
     MaxDuration := 1000; MinChallengeWindow := 5; MaxChallengeWindow := 100;
     MinTolerance := 1; Price := 1; Burn := 1; CoinAddress_ := 65 |}.

Definition enlargedSettings : HostAnnouncement :=
  {| TotalStorage := 900; MinFilesize := 1; MaxFilesize := 1000; MinDuration := 10;
     MaxDuration := 1000; MinChallengeWindow := 5; MaxChallengeWindow := 100;
     MinTolerance := 1; Price := 1; Burn := 1; CoinAddress_ := 65 |}.

(** A session whose connection ends after ten bytes, and one in which the
    file cannot be created. *)
Definition shortSession : Session :=
  {| conn_write := fun _ => None; create_result := None;
     upload := repeat Byte.x2a 10; copy_fault := None; seek_result := None;
     height_after_upload := 101 |}.

Definition fullDiskSession : Session :=
  {| conn_write := fun _ => None; create_result := Some "create: no space left on device";
     upload := repeat Byte.x2a 500; copy_fault := None; seek_result := None;
     height_after_upload := 101 |}.

(** * Properties *)

Module U64Facts.
Import U64.

Lemma wrap_range z : in_range (wrap z).
Proof. unfold in_range, wrap, modulus. apply Z.mod_pos_bound. lia. Qed.

Lemma wrap_small z : in_range z -> wrap z = z.
Proof. unfold in_range, wrap. intros Hz. apply Z.mod_small. exact Hz. Qed.

Lemma wrap_wrap z : wrap (wrap z) = wrap z.
Proof. unfold wrap. apply Z.mod_mod. unfold modulus. lia. Qed.

Lemma add_small a b : in_range (a + b) -> add a b = a + b.
Proof. apply wrap_small. Qed.

Lemma wrap_add_l a b : wrap (wrap a + b) = wrap (a + b).
Proof. unfold wrap. apply Zplus_mod_idemp_l. Qed.

Lemma wrap_sub_l a b : wrap (wrap a - b) = wrap (a - b).
Proof. unfold wrap. apply Zminus_mod_idemp_l. Qed.

End U64Facts.

Section HostProperties.
Context `{External}.

(** ** What the validator leaves alone *)

Lemma signNewInputs_contracts idx : forall w t w' t' r,
  signNewInputs w t idx = (w', t', r) ->
  FileContracts t' = FileContracts t /\ Inputs t' = Inputs t.
Proof.
  induction idx as [|i idx IH]; intros w t w' t' r; simpl.
  - intros [= _ <- _]. split; reflexivity.
  - destruct (SignTransaction w t i) as [w1 [err|sig]].
    + intros [= _ <- _]. split; reflexivity.
    + intros Hs. apply IH in Hs. exact Hs.
Qed.

(** The validator writes to the wallet and to nothing else, and it keeps
    the file contracts of the proposal. *)
Lemma considerContract_frame (e e' : Environment) (t t' : Transaction) (r : option error) :
  considerContract e t = Return (e', t', r) ->
  host e' = host e /\ disk e' = disk e /\ height e' = height e /\
  hostDir e' = hostDir e /\ FileContracts t' = FileContracts t.
Proof.
  unfold considerContract.
  destruct (FileContracts t) as [|fc rest] eqn:Hfc; [discriminate|].
  repeat match goal with
         | |- context [if ?b then _ else _] => destruct b
         end;
    try (intros [= <- <- _]; rewrite ?Hfc; repeat split; reflexivity).
  destruct (FundTransaction _ _ _) as [w1 [err|[ins outs]]].
  - intros [= <- <- _]. rewrite ?Hfc. repeat split; reflexivity.
  - destruct (signNewInputs _ _ _) as [[w2 nt2] [err|]] eqn:Hs;
      apply signNewInputs_contracts in Hs as [Hs _]; simpl in Hs;
      [|destruct (ValidTransaction nt2)];
      intros [= <- <- _]; rewrite Hs, ?Hfc; repeat split; reflexivity.
Qed.

(** A transaction the validator lets through has exactly one contract. *)
Lemma considerContract_accepts_one (e e' : Environment) (t t' : Transaction) :
  considerContract e t = Return (e', t', None) ->
  exists fc, FileContracts t = [fc].
Proof.
  unfold considerContract.
  destruct (FileContracts t) as [|fc [|fc' rest]] eqn:Hfc; [discriminate| |].
  - intros _. exists fc. reflexivity.
  - simpl. discriminate.
Qed.

(** Whatever the validator answers, a rejection ends the session with the
    reason written to the connection and the host and the disk as before. *)
Lemma rejection_ends_session (e e1 : Environment) (t0 t1 : Transaction) (reason : error)
    (s : Session) (data : list Byte.byte) :
  Unmarshal data = (t0, None) ->
  considerContract e t0 = Return (e1, t1, Some reason) ->
  NegotiateContract e s data = Return (e1, [reason], conn_write s reason) /\
  host e1 = host e /\ disk e1 = disk e.
Proof.
  intros Hu Hc. unfold NegotiateContract. rewrite Hu, Hc.
  apply considerContract_frame in Hc as (Hh & Hd & _).
  repeat split; assumption.
Qed.

(** C9.  A proposal whose single contract has a file size below
    [MinFilesize] or above [MaxFilesize] is rejected by [considerContract]
    with the "file is of incorrect size" reason; the session that carried it
    writes that reason and returns the environment it started from.  Every
    rejection by the validator, whatever its reason, leaves the host state
    ([SpaceRemaining], the file mapping, both schedules) and the disk
    unchanged. *)
Theorem size_out_of_bounds_rejected (e : Environment) (t : Transaction) (fc : FileContract) :
  FileContracts t = [fc] ->
  FileSize fc < MinFilesize (Settings (host e)) \/
    MaxFilesize (Settings (host e)) < FileSize fc ->
  let reason := incorrectSizeError (FileSize fc) (MinFilesize (Settings (host e)))
                  (MaxFilesize (Settings (host e))) in
  considerContract e t = Return (e, t, Some reason) /\
  (forall s data, Unmarshal data = (t, None) ->
     NegotiateContract e s data = Return (e, [reason], conn_write s reason)) /\
  (forall t0 e1 t1 reason' s data,
     Unmarshal data = (t0, None) ->
     considerContract e t0 = Return (e1, t1, Some reason') ->
     exists e', NegotiateContract e s data = Return (e', [reason'], conn_write s reason') /\
                host e' = host e /\ disk e' = disk e).
Proof.
  intros Hfc Hsize reason.
  assert (Hc : considerContract e t = Return (e, t, Some reason)).
  { unfold considerContract. rewrite Hfc. simpl.
    replace ((FileSize fc <? MinFilesize (Settings (host e)))
             || (MaxFilesize (Settings (host e)) <? FileSize fc)) with true; [reflexivity|].
    symmetry. apply orb_true_iff.
    destruct Hsize as [Hlo|Hhi]; [left|right]; apply Z.ltb_lt; assumption. }
  split; [exact Hc|]. split.
  - intros s data Hu. eapply rejection_ends_session in Hc as [Hn _]; [exact Hn|exact Hu].
  - intros t0 e1 t1 reason' s data Hu Hc'. exists e1.
    eapply rejection_ends_session; eassumption.
Qed.

(** C4, at the failing inputs.  A proposal with no file contract makes
    [considerContract] index [nt.FileContracts[0]] before it checks the
    length: the call panics instead of returning the "must have exactly one
    contract" reason. *)
Theorem no_contract_panics (e : Environment) (inputs outputs sigs : list Z)
    (fees : list Currency) (proofs : list StorageProof) :
  considerContract e
    {| Inputs := inputs; MinerFees := fees; Outputs := outputs; FileContracts := [];
       StorageProofs := proofs; Signatures := sigs |} = Panic "index out of range".
Proof. unfold considerContract. cbn [FileContracts]. reflexivity. Qed.

Lemma no_contract_session_panics (e : Environment) (s : Session) (data : list Byte.byte) :
  Unmarshal data = (proposalOf [], None) ->
  NegotiateContract e s data = Panic "index out of range".
Proof. intros Hu. unfold NegotiateContract. rewrite Hu. reflexivity. Qed.

(** With two or more contracts the length check is the first to fire. *)
Lemma several_contracts_rejected (e : Environment) (t : Transaction) (fc fc' : FileContract)
    (rest : list FileContract) :
  FileContracts t = fc :: fc' :: rest ->
  considerContract e t = Return (e, t, Some "transaction must have exactly one contract").
Proof. intros Hfc. unfold considerContract. rewrite Hfc. reflexivity. Qed.

(** C8.  When the validator accepts the proposal and the session completes
    without error, the only change to the forward schedule is that the entry
    [{ID: t.FileContractID(0), Contract: &t.FileContracts[0]}] of the
    finalized transaction is appended to the bucket at [Start + 6], the sum
    being taken in [uint64]; the contract is the one of the proposal, and
    [StorageProofReorgDepth] is 6. *)
Theorem accepted_contract_scheduled (e e1 e' : Environment) (t0 t1 : Transaction)
    (s : Session) (data : list Byte.byte) (sent : list string) :
  Unmarshal data = (t0, None) ->
  considerContract e t0 = Return (e1, t1, None) ->
  NegotiateContract e s data = Return (e', sent, None) ->
  exists fc,
    FileContracts t0 = [fc] /\ FileContracts t1 = [fc] /\
    let firstProof := U64.add (Start fc) 6 in
    let entry := {| ID := FileContractID t1 0; Contract := fc |} in
    ForwardContracts (host e') =
      <[firstProof := bucket (ForwardContracts (host e)) firstProof ++ [entry]]>
        (ForwardContracts (host e)) /\
    StorageProofReorgDepth = 6 /\
    (0 <= Start fc -> Start fc + 6 < 2 ^ 64 -> firstProof = Start fc + 6).
Proof.
  intros Hu Hc Hn.
  destruct (considerContract_accepts_one _ _ _ _ Hc) as [fc Hfc].
  destruct (considerContract_frame _ _ _ _ _ Hc) as (Hh & _ & _ & _ & Hfc1).
  exists fc. rewrite Hfc1. split; [exact Hfc|]. split; [exact Hfc|].
  unfold NegotiateContract in Hn. rewrite Hu, Hc, Hfc1, Hfc in Hn.
  destruct (conn_write s AcceptContractResponse); [discriminate|].
  destruct (create_result s); [discriminate|].
  destruct (copyN s _) as [content [err|]]; [discriminate|].
  destruct (seek_result s); [discriminate|].
  destruct (ReaderMerkleRoot _ _) as [root [err|]]; [discriminate|].
  destruct (negb _); [discriminate|].
  destruct (_ <=? _); [discriminate|].
  destruct (AcceptTransaction t1); [discriminate|].
  injection Hn as <- _. simpl. rewrite Hh.
  split; [reflexivity|]. split; [reflexivity|].
  intros H0 H6. apply U64Facts.add_small. unfold U64.in_range, U64.modulus. lia.
Qed.

(** ** The schedule under one applied block *)

Lemma bucket_append_lookup (m : gmap Z (list ContractEntry)) (h k : BlockHeight)
    (ce : ContractEntry) :
  bucket (bucket_append m h ce) k = bucket m k ++ (if k =? h then [ce] else []).
Proof.
  unfold bucket_append, bucket at 1. destruct (Z.eqb_spec k h) as [->|Hne].
  - rewrite lookup_insert_eq. reflexivity.
  - rewrite lookup_insert_ne by congruence. fold (bucket m k). rewrite app_nil_r. reflexivity.
Qed.

(** The proof builder reads the file mapping, the host directory and the
    disk; the schedules do not matter. *)
Lemma createStorageProof_files (e : Environment) (hst : Host) (ce : ContractEntry)
    (h : BlockHeight) :
  Files hst = Files (host e) ->
  createStorageProof (set_host e hst) ce h = createStorageProof e ce h.
Proof.
  intros Hf. unfold createStorageProof, os_Open. simpl. rewrite Hf. reflexivity.
Qed.

Lemma reschedule_files (hst : Host) (h : BlockHeight) (ce : ContractEntry) :
  Files (reschedule hst h ce) = Files hst.
Proof. unfold reschedule. destruct (_ <? _); reflexivity. Qed.

Lemma reschedule_forward (hst : Host) (h k : BlockHeight) (ce : ContractEntry) :
  bucket (ForwardContracts (reschedule hst h ce)) k =
  bucket (ForwardContracts hst) k ++
  (if (nextProofHeight h ce =? k) && (k <? End_ (Contract ce)) then [ce] else []).
Proof.
  unfold reschedule. destruct (Z.ltb_spec (nextProofHeight h ce) (End_ (Contract ce))) as [Hlt|Hge].
  - simpl. rewrite bucket_append_lookup. rewrite (Z.eqb_sym k).
    destruct (Z.eqb_spec (nextProofHeight h ce) k) as [<-|Hne]; simpl; [|reflexivity].
    destruct (Z.ltb_spec (nextProofHeight h ce) (End_ (Contract ce))); [reflexivity|lia].
  - simpl. destruct (Z.eqb_spec (nextProofHeight h ce) k) as [<-|Hne]; simpl.
    + destruct (Z.ltb_spec (nextProofHeight h ce) (End_ (Contract ce))); [lia|].
      rewrite app_nil_r. reflexivity.
    + rewrite app_nil_r. reflexivity.
Qed.

Lemma reschedule_backward (hst : Host) (h k : BlockHeight) (ce : ContractEntry) :
  bucket (BackwardContracts (reschedule hst h ce)) k =
  bucket (BackwardContracts hst) k ++ (if k =? backwardHeight h then [ce] else []).
Proof.
  unfold reschedule. destruct (_ <? _); simpl; apply bucket_append_lookup.
Qed.

(** What the inner loop of the apply phase does to the two schedules: the
    entries whose proof was built are appended, in order, to the backward
    bucket, and those with a window left to their next forward bucket. *)
Lemma proveDue_schedules (h : BlockHeight) (entries : list ContractEntry) :
  forall (e : Environment) (proofs : list StorageProof),
  let e' := (proveDue e h entries proofs).1 in
  Files (host e') = Files (host e) /\
  (forall k, bucket (ForwardContracts (host e')) k =
     bucket (ForwardContracts (host e)) k ++
     List.filter (fun ce => proofBuilt e h ce && (nextProofHeight h ce =? k)
                            && (k <? End_ (Contract ce))) entries) /\
  (forall k, bucket (BackwardContracts (host e')) k =
     bucket (BackwardContracts (host e)) k ++
     (if k =? backwardHeight h then List.filter (proofBuilt e h) entries else [])).
Proof.
  induction entries as [|ce rest IH]; intros e proofs; cbv zeta; cbn [proveDue List.filter].
  - repeat split; intros; rewrite ?app_nil_r; try reflexivity.
    destruct (_ =? _); rewrite app_nil_r; reflexivity.
  - destruct (createStorageProof e ce h) as [proof [err|]] eqn:Hp.
    + assert (Hb : proofBuilt e h ce = false) by (unfold proofBuilt; rewrite Hp; reflexivity).
      rewrite Hb. cbn [andb]. apply IH.
    + assert (Hb : proofBuilt e h ce = true) by (unfold proofBuilt; rewrite Hp; reflexivity).
      rewrite Hb. cbn [andb].
      set (e1 := set_host e (reschedule (host e) h ce)).
      assert (Hbuilt : forall x, proofBuilt e1 h x = proofBuilt e h x).
      { intros x. unfold proofBuilt, e1.
        rewrite createStorageProof_files by apply reschedule_files. reflexivity. }
      destruct (IH e1 (proofs ++ [proof])) as (Hf & Hfw & Hbw).
      split; [rewrite Hf; apply reschedule_files|]. split.
      * intros k. rewrite Hfw. unfold e1 at 1. cbn [host set_host]. rewrite reschedule_forward.
        rewrite <- app_assoc. f_equal.
        rewrite (List.filter_ext _ (fun ce0 => proofBuilt e h ce0 && (nextProofHeight h ce0 =? k)
                                       && (k <? End_ (Contract ce0))))
          by (intros x; rewrite Hbuilt; reflexivity).
        destruct (_ && _); reflexivity.
      * intros k. rewrite Hbw. unfold e1 at 1. cbn [host set_host]. rewrite reschedule_backward.
        rewrite <- app_assoc. f_equal.
        rewrite (List.filter_ext _ (proofBuilt e h)) by exact Hbuilt.
        destruct (_ =? _); reflexivity.
Qed.

Lemma backwardHeight_eq (h : BlockHeight) :
  backwardHeight h = U64.wrap (h - StorageProofReorgDepth + 1).
Proof. unfold backwardHeight, U64.add, U64.sub. apply U64Facts.wrap_add_l. Qed.

(** One applied block at [h]: the forward bucket at [h] is gone, every other
    forward bucket gains the built entries that are due there next, and the
    backward bucket at [h - 6 + 1] gains all built entries. *)
Lemma applyBlock_schedules (e : Environment) (h : BlockHeight) (proofs : list StorageProof) :
  let e' := (applyBlock e h proofs).1 in
  let due := bucket (ForwardContracts (host e)) h in
  Files (host e') = Files (host e) /\
  ForwardContracts (host e') !! h = None /\
  (forall k, k <> h ->
     bucket (ForwardContracts (host e')) k =
     bucket (ForwardContracts (host e)) k ++
     List.filter (fun ce => proofBuilt e h ce && (nextProofHeight h ce =? k)
                            && (k <? End_ (Contract ce))) due) /\
  (forall k, bucket (BackwardContracts (host e')) k =
     bucket (BackwardContracts (host e)) k ++
     (if k =? backwardHeight h then List.filter (proofBuilt e h) due else [])).
Proof.
  cbv zeta. unfold applyBlock.
  pose proof (proveDue_schedules h (bucket (ForwardContracts (host e)) h) e proofs) as Hp.
  cbv zeta in Hp. destruct (proveDue e h _ proofs) as [e1 proofs1]. simpl in *.
  destruct Hp as (Hf & Hfw & Hbw).
  split; [exact Hf|]. split; [apply lookup_delete_eq|]. split; [|exact Hbw].
  intros k Hk. rewrite <- Hfw. unfold bucket. rewrite lookup_delete_ne by congruence.
  reflexivity.
Qed.

(** Entry by entry: when the driver applies a block at height [h], every
    entry of the forward bucket at [h] whose storage proof is built without
    error is in the backward bucket at [h - 6 + 1] afterwards; it is in the
    forward bucket at [h + ChallengeWindow] afterwards if and only if that
    height is below the contract's end (or the entry was in that bucket
    already), provided that height is not [h] itself; and the forward bucket
    at [h] no longer exists.  Heights are [uint64] sums. *)
Theorem built_entries_move (e : Environment) (h : BlockHeight) (proofs : list StorageProof)
    (ce : ContractEntry) :
  In ce (bucket (ForwardContracts (host e)) h) ->
  proofBuilt e h ce = true ->
  let e' := (applyBlock e h proofs).1 in
  let nextProof := nextProofHeight h ce in
  In ce (bucket (BackwardContracts (host e')) (backwardHeight h)) /\
  (nextProof <> h ->
     (In ce (bucket (ForwardContracts (host e')) nextProof) <->
      nextProof < End_ (Contract ce) \/ In ce (bucket (ForwardContracts (host e)) nextProof))) /\
  ForwardContracts (host e') !! h = None /\
  backwardHeight h = U64.wrap (h - StorageProofReorgDepth + 1).
Proof.
  intros Hin Hbuilt e' nextProof.
  destruct (applyBlock_schedules e h proofs) as (_ & Hgone & Hfw & Hbw).
  fold e' in Hgone, Hfw, Hbw. split; [|split; [|split]].
  - rewrite Hbw, Z.eqb_refl. apply in_or_app. right.
    apply List.filter_In. split; assumption.
  - intros Hne. rewrite (Hfw _ Hne), in_app_iff, List.filter_In.
    split.
    + intros [Hold|[_ Hc]]; [right; exact Hold|left].
      apply andb_prop in Hc as [_ Hlt]. apply Z.ltb_lt. exact Hlt.
    + intros [Hlt|Hold]; [right|left; exact Hold].
      split; [exact Hin|]. rewrite Hbuilt. fold nextProof. rewrite Z.eqb_refl. simpl.
      apply Z.ltb_lt. exact Hlt.
  - exact Hgone.
  - apply backwardHeight_eq.
Qed.

(** Entries whose proof cannot be built leave the forward schedule with
    their bucket and do not enter the backward schedule. *)
Lemma proveDue_all_failed (h : BlockHeight) (entries : list ContractEntry) :
  forall (e : Environment) (proofs : list StorageProof),
  (forall ce, In ce entries -> proofBuilt e h ce = false) ->
  proveDue e h entries proofs = (e, proofs).
Proof.
  induction entries as [|x l IH]; intros e proofs Hall; [reflexivity|]. simpl.
  pose proof (Hall x (or_introl eq_refl)) as Hx. unfold proofBuilt in Hx.
  destruct (createStorageProof e x h) as [pr [er|]]; [|discriminate].
  apply IH. intros ce Hce. apply Hall. right. exact Hce.
Qed.

Lemma failed_entries_dropped (e : Environment) (h : BlockHeight) (proofs : list StorageProof) :
  (forall ce, In ce (bucket (ForwardContracts (host e)) h) -> proofBuilt e h ce = false) ->
  let e' := (applyBlock e h proofs).1 in
  ForwardContracts (host e') = delete h (ForwardContracts (host e)) /\
  BackwardContracts (host e') = BackwardContracts (host e) /\
  (applyBlock e h proofs).2 = proofs.
Proof.
  intros Hfail. cbv zeta. unfold applyBlock.
  rewrite proveDue_all_failed by exact Hfail. repeat split; reflexivity.
Qed.

(** ** The driver *)

Lemma submitProofs_host (e : Environment) (proofs : list StorageProof) :
  host (submitProofs e proofs).1 = host e.
Proof.
  unfold submitProofs. destruct proofs as [|p ps]; [reflexivity|].
  destruct (FundTransaction _ _ _) as [w [err|[ins outs]]];
    destruct (signAll _ _ _); reflexivity.
Qed.

Lemma maintenance_one_block (e : Environment) (h : BlockHeight) (b : BlockID) :
  host (storageProofMaintenance e h [] [b]).1 = host (applyBlock e h []).1.
Proof.
  unfold storageProofMaintenance. simpl.
  destruct (applyBlock e h []) as [e1 p1]. apply submitProofs_host.
Qed.

(** C1 (amended).  The two schedules are not exclusive.  After the driver
    has applied one block at height [h], an entry that was due at [h] is no
    longer in the forward bucket at [h]; if its proof was built it is in the
    backward bucket at [h - 6 + 1]; and if moreover another window remains
    ([h + ChallengeWindow] below the end, and different from [h]) it is at
    the same time in the forward bucket at [h + ChallengeWindow]. *)
Theorem entry_in_both_schedules (e : Environment) (h : BlockHeight) (b : BlockID)
    (ce : ContractEntry) :
  In ce (bucket (ForwardContracts (host e)) h) ->
  let e' := (storageProofMaintenance e h [] [b]).1 in
  ~ In ce (bucket (ForwardContracts (host e')) h) /\
  (proofBuilt e h ce = true ->
     In ce (bucket (BackwardContracts (host e')) (backwardHeight h)) /\
     (nextProofHeight h ce < End_ (Contract ce) -> nextProofHeight h ce <> h ->
        In ce (bucket (ForwardContracts (host e')) (nextProofHeight h ce)))).
Proof.
  intros Hin e'. unfold e'. rewrite maintenance_one_block.
  destruct (applyBlock_schedules e h []) as (_ & Hgone & Hfw & Hbw).
  split.
  - unfold bucket at 1. rewrite Hgone. simpl. tauto.
  - intros Hbuilt. split.
    + rewrite Hbw, Z.eqb_refl. apply in_or_app. right.
      apply List.filter_In. split; assumption.
    + intros Hlt Hne. rewrite (Hfw _ Hne). apply in_or_app. right.
      apply List.filter_In. split; [exact Hin|].
      rewrite Hbuilt, Z.eqb_refl. simpl. apply Z.ltb_lt. exact Hlt.
Qed.

(** ** Rewinding and re-applying *)

(** The rewind phase reads the backward schedule and only moves the height. *)
Lemma rewindPhase_height (e : Environment) (rewound : list BlockID) :
  forall (h : BlockHeight) (proofs : list StorageProof),
  rewound <> [] ->
  (rewindPhase e h rewound proofs).1 = U64.wrap (h - Z.of_nat (length rewound)).
Proof.
  induction rewound as [|b rest IH]; intros h proofs Hne; [congruence|].
  destruct rest as [|b' rest'].
  - simpl. unfold U64.sub. reflexivity.
  - change (rewindPhase e h (b :: b' :: rest') proofs)
      with (rewindPhase e (U64.sub h 1) (b' :: rest')
              (regenerate e h (bucket (BackwardContracts (host e)) h) proofs)).
    rewrite IH by discriminate. unfold U64.sub. rewrite U64Facts.wrap_sub_l.
    f_equal. change (length (b :: b' :: rest')) with (S (length (b' :: rest'))). lia.
Qed.

Lemma bucket_delete_empty (m : gmap Z (list ContractEntry)) (h x : BlockHeight) :
  bucket m h = [] -> bucket (delete h m) x = bucket m x.
Proof.
  intros Hempty. unfold bucket. destruct (decide (x = h)) as [->|Hx].
  - rewrite lookup_delete_eq. symmetry. exact Hempty.
  - rewrite lookup_delete_ne by congruence. reflexivity.
Qed.

(** Applying blocks over heights whose forward buckets are empty builds no
    proof and changes nothing but the presence of those (empty) buckets. *)
Lemma applyPhase_idle (applied : list BlockID) :
  forall (e : Environment) (h : BlockHeight) (proofs : list StorageProof),
  U64.wrap h = h ->
  (forall i, 0 <= i < Z.of_nat (length applied) ->
     bucket (ForwardContracts (host e)) (U64.wrap (h + i)) = []) ->
  exists fwd,
    (applyPhase e h applied proofs).1.1 = set_host e (set_forward (host e) fwd) /\
    (applyPhase e h applied proofs).2 = proofs /\
    forall x, bucket fwd x = bucket (ForwardContracts (host e)) x.
Proof.
  induction applied as [|b rest IH]; intros e h proofs Hh Hempty.
  - exists (ForwardContracts (host e)). simpl.
    destruct e as [? ? [] ? ?]. repeat split; reflexivity.
  - assert (H0 : bucket (ForwardContracts (host e)) h = []).
    { rewrite <- Hh, <- (Z.add_0_r h). apply Hempty.
      change (length (b :: rest)) with (S (length rest)). lia. }
    cbn [applyPhase]. unfold applyBlock. rewrite H0. cbn [proveDue].
    set (e1 := set_host e (set_forward (host e) (delete h (ForwardContracts (host e))))).
    destruct (IH e1 (U64.add h 1) proofs) as (fwd & He & Hp & Hb).
    + apply U64Facts.wrap_wrap.
    + intros i Hi. unfold e1. cbn [host set_host set_forward ForwardContracts].
      rewrite bucket_delete_empty by exact H0.
      unfold U64.add. rewrite U64Facts.wrap_add_l.
      replace (h + 1 + i) with (h + (1 + i)) by lia. apply Hempty.
      change (length (b :: rest)) with (S (length rest)). lia.
    + exists fwd. rewrite He, Hp. split; [reflexivity|]. split; [reflexivity|].
      intros x. rewrite Hb. unfold e1. cbn [host set_host set_forward ForwardContracts].
      apply bucket_delete_empty. exact H0.
Qed.

(** Nothing due, nothing moves.  Let the forward schedule hold no entry at
    the [k] heights below the initial height, [h0 - k .. h0 - 1], as is the
    case once the driver has processed them.  Then a call with [k] rewound and [k] applied
    blocks leaves the contents of every forward bucket and the whole backward
    schedule as they were. *)
Theorem noop_reorg_keeps_schedules (e : Environment) (h0 : BlockHeight)
    (rewound applied : list BlockID) :
  length rewound = length applied ->
  (forall j, 1 <= j <= Z.of_nat (length rewound) ->
     bucket (ForwardContracts (host e)) (U64.wrap (h0 - j)) = []) ->
  let e' := (storageProofMaintenance e h0 rewound applied).1 in
  (forall x, bucket (ForwardContracts (host e')) x = bucket (ForwardContracts (host e)) x) /\
  BackwardContracts (host e') = BackwardContracts (host e).
Proof.
  intros Hlen Hempty. cbv zeta. unfold storageProofMaintenance.
  destruct rewound as [|r rs].
  - destruct applied; [|discriminate]. simpl. split; reflexivity.
  - pose proof (rewindPhase_height e (r :: rs) h0 [] ltac:(discriminate)) as Hh.
    destruct (rewindPhase e h0 (r :: rs) []) as [h1 proofs1]. cbn [fst] in Hh. subst h1.
    set (k := Z.of_nat (length (r :: rs))) in *.
    destruct (applyPhase_idle applied e (U64.wrap (h0 - k)) proofs1) as (fwd & He & Hp & Hb).
    + apply U64Facts.wrap_wrap.
    + intros i Hi. rewrite U64Facts.wrap_add_l.
      replace (h0 - k + i) with (h0 - (k - i)) by lia. apply Hempty. fold k.
      rewrite <- Hlen in Hi. fold k in Hi. lia.
    + destruct (applyPhase e (U64.wrap (h0 - k)) applied proofs1) as [[e2 h2] proofs2].
      simpl in He, Hp. rewrite submitProofs_host. subst e2. simpl.
      split; [exact Hb|reflexivity].
Qed.

(** ** Sessions *)

(** Walk down the steps of a session after the acceptance message. *)
Ltac session_steps Hn :=
  repeat match type of Hn with
         | context [match ?x with _ => _ end] =>
             match x with
             | context [match _ with _ => _ end] => fail 1
             | _ => let E := fresh "Hstep" in destruct x eqn:E
             end
         end.

(** No session changes the remaining space, the settings or the backward
    schedule. *)
Lemma NegotiateContract_space (e e' : Environment) (s : Session) (data : list Byte.byte)
    (sent : list string) (r : option error) :
  NegotiateContract e s data = Return (e', sent, r) ->
  SpaceRemaining (host e') = SpaceRemaining (host e) /\
  Settings (host e') = Settings (host e) /\
  BackwardContracts (host e') = BackwardContracts (host e).
Proof.
  unfold NegotiateContract. intros Hn.
  destruct (Unmarshal data) as [t0 [err|]]; [injection Hn as <- _ _; auto|].
  destruct (considerContract e t0) as [[[e1 t1] [reason|]]|msg] eqn:Hc; [| |discriminate];
    apply considerContract_frame in Hc as (Hh & _).
  - injection Hn as <- _ _. rewrite Hh. auto.
  - unfold abort_upload in Hn. session_steps Hn;
      try discriminate; injection Hn as <- _ _; simpl; rewrite Hh; auto.
Qed.

(** A session that ends in an error although the transaction pool took (or
    was never offered) the transaction leaves the host as it was, and the
    file it may have written is gone. *)
Lemma failed_session_keeps_host (e e1 e' : Environment) (t0 t1 : Transaction) (s : Session)
    (data : list Byte.byte) (sent : list string) (err : error) :
  Unmarshal data = (t0, None) ->
  considerContract e t0 = Return (e1, t1, None) ->
  AcceptTransaction t1 = None ->
  NegotiateContract e s data = Return (e', sent, Some err) ->
  host e' = host e /\
  (conn_write s AcceptContractResponse = None -> create_result s = None ->
   disk e' !! (hostDir e +:+ pretty (Index (host e))) = None).
Proof.
  intros Hu Hc Ha Hn. unfold NegotiateContract in Hn. rewrite Hu, Hc in Hn.
  apply considerContract_frame in Hc as (Hh & _ & _ & Hdir & _).
  unfold abort_upload in Hn. rewrite Ha in Hn.
  session_steps Hn; try discriminate; injection Hn as <- _ _; simpl; rewrite ?Hh, ?Hdir;
    (split; [reflexivity|]); intros; try congruence; apply lookup_delete_eq.
Qed.

(** The lateness check as the code computes it: once the chain has reached
    [Start - 2], taken in [uint64], the session ends in an error and the
    host is as before. *)
Lemma late_upload_rejected (e e1 e' : Environment) (t0 t1 : Transaction) (fc : FileContract)
    (s : Session) (data : list Byte.byte) (sent : list string) (r : option error) :
  Unmarshal data = (t0, None) ->
  considerContract e t0 = Return (e1, t1, None) ->
  FileContracts t0 = [fc] ->
  U64.sub (Start fc) 2 <= height_after_upload s ->
  NegotiateContract e s data = Return (e', sent, r) ->
  r <> None /\ host e' = host e.
Proof.
  intros Hu Hc Hfc Hlate Hn. unfold NegotiateContract in Hn. rewrite Hu, Hc in Hn.
  apply considerContract_frame in Hc as (Hh & _ & _ & _ & Hfc1).
  rewrite Hfc1, Hfc in Hn. unfold abort_upload in Hn.
  apply Z.leb_le in Hlate. cbn [height set_height] in Hn. rewrite Hlate in Hn.
  session_steps Hn; try discriminate; injection Hn as <- _ <-; simpl; rewrite ?Hh;
    split; congruence.
Qed.

End HostProperties.

(** * The scenarios, evaluated *)

Lemma afterNegotiation_reachable : @reachable acceptingWorld afterNegotiation.
Proof.
  unfold afterNegotiation, negotiated.
  assert (Hfresh : @reachable acceptingWorld freshHost).
  { apply reach_settings, reach_create. reflexivity. }
  destruct (NegotiateContract freshHost (goodSession 101) []) as [[[e' sent] err]|msg] eqn:Hn.
  - eapply reach_negotiate; [exact Hfresh|exact Hn].
  - exact Hfresh.
Qed.

Example scenario_accepted :
  @NegotiateContract acceptingWorld freshHost (goodSession 101) [] =
    Return (afterNegotiation, ["accept"], None) /\
  bucket (ForwardContracts (host afterNegotiation)) 126 = [scenarioEntry] /\
  Files (host afterNegotiation) !! 500 = Some "0" /\
  disk afterNegotiation !! "host/0" = Some (repeat Byte.x2a 500).
Proof. vm_compute. repeat split; reflexivity. Qed.

(** ** Capacity (C2) *)

(** C2, at the failing input.  The host has 600 bytes of unsold space; the
    500-byte scenario contract is accepted and scheduled, and the unsold
    space is still 600 afterwards, not 100: nothing in the negotiation
    subtracts the file size.  A further 500-byte contract then passes the
    validator's capacity check as well. *)
Theorem accepted_space_not_consumed :
  @NegotiateContract acceptingWorld freshHost (goodSession 101) [] =
    Return (afterNegotiation, ["accept"], None) /\
  FileSize scenarioContract = 500 /\
  SpaceRemaining (host freshHost) = 600 /\
  SpaceRemaining (host afterNegotiation) = 600 /\
  exists e' t',
    @considerContract acceptingWorld afterNegotiation (proposalOf [contractWith 130 90000]) =
      Return (e', t', None).
Proof.
  split; [vm_compute; reflexivity|].
  repeat (split; [vm_compute; reflexivity|]).
  eexists _, _. vm_compute. reflexivity.
Qed.

(** ** Cleanup after a refused transaction (C3) *)

(** C3, at the failing input.  The upload is complete and correct but the
    transaction pool refuses the transaction.  The session ends with that
    error and the stored file is removed, yet the file mapping now sends the
    root to the removed file and the index counter has advanced. *)
Theorem refused_transaction_leaves_registration :
  let e := scenarioEnvironment refusingWorld tt 100 in
  let e' := negotiated refusingWorld e (goodSession 101) in
  @NegotiateContract refusingWorld e (goodSession 101) [] =
    Return (e', ["accept"], Some "transaction refused") /\
  disk e' !! "host/0" = None /\
  Files (host e) !! 500 = None /\ Index (host e) = 0 /\
  Files (host e') !! 500 = Some "0" /\ Index (host e') = 1 /\
  ForwardContracts (host e') = ForwardContracts (host e).
Proof. vm_compute. repeat split; reflexivity. Qed.

(** ** Lateness (C5) *)

(** C5, at the failing input.  The chain is at height 0 and the contract
    starts at height 1, so the height is not below [Start - 2]; but the code
    computes [Start - 2] in [uint64], where it is [2^64 - 1], and the check
    passes: the session succeeds, the file stays and the entry is scheduled
    at height 7. *)
Theorem early_start_not_rejected :
  let e := scenarioEnvironment earlyWorld tt 0 in
  let s := goodSession 0 in
  let e' := negotiated earlyWorld e s in
  height_after_upload s >= Start earlyContract - 2 /\
  U64.sub (Start earlyContract) 2 = 2 ^ 64 - 1 /\
  @NegotiateContract earlyWorld e s [] = Return (e', ["accept"], None) /\
  disk e' !! "host/0" = Some (repeat Byte.x2a 500) /\
  Files (host e') !! 500 = Some "0" /\
  bucket (ForwardContracts (host e')) 7 = [{| ID := 7000; Contract := earlyContract |}].
Proof. vm_compute. repeat split; try reflexivity. discriminate. Qed.

(** For comparison: with the scenario contract (start 120) an upload that
    ends at height 118 is refused as late and leaves nothing behind. *)
Example late_scenario_rejected :
  let e' := negotiated acceptingWorld freshHost (goodSession 118) in
  @NegotiateContract acceptingWorld freshHost (goodSession 118) [] =
    Return (e', ["accept"],
            Some "file not uploaded in time, refusing to go forward with contract") /\
  host e' = host freshHost /\ disk e' !! "host/0" = None.
Proof. vm_compute. repeat split; reflexivity. Qed.

(** ** A missing file record (C10) *)

(** C10, at the failing input.  The host has no record for the contract's
    root, and its directory prefix ["host"] names a file.  The lookup
    failure is overwritten by the result of [os.Open], which opens that file
    under the empty name, and a proof is returned with a nil error. *)
Theorem unknown_file_still_proved :
  Files (host prefixHost) !! FileMerkleRoot (Contract scenarioEntry) = None /\
  @createStorageProof acceptingWorld prefixHost scenarioEntry 126 =
    ({| sp_ContractID := 7000; sp_WindowIndex := 0;
        sp_Segment := repeat Byte.x00 64; sp_HashSet := [] |}, None).
Proof. vm_compute. split; reflexivity. Qed.

(** Without such a file the error returned is the one of [os.Open], not
    the "no record of that file" of the lookup. *)
Example unknown_file_open_error :
  @createStorageProof acceptingWorld (set_disk prefixHost ∅) scenarioEntry 126 =
    (zeroStorageProof, Some "open: no such file or directory").
Proof. vm_compute. reflexivity. Qed.

(** ** The schedules (C1, C6, C7) *)

(** The host of the scenario when the chain reaches the first proof height,
    and after the driver has applied that block. *)
Example first_proof_applied :
  let e' := (@storageProofMaintenance acceptingWorld afterNegotiation 126 [] [0]).1 in
  ForwardContracts (host e') !! 126 = None /\
  bucket (ForwardContracts (host e')) 136 = [scenarioEntry] /\
  bucket (BackwardContracts (host e')) 121 = [scenarioEntry].
Proof. vm_compute. repeat split; reflexivity. Qed.

(** C1, counterexample.  A reachable host holds the scenario entry in the
    forward bucket at 136 and in the backward bucket at 121 at once. *)
Lemma schedules_not_exclusive :
  ~ (forall e : @Environment acceptingWorld, reachable e ->
       forall ce hf hb,
         In ce (bucket (ForwardContracts (host e)) hf) ->
         ~ In ce (bucket (BackwardContracts (host e)) hb)).
Proof.
  intros Hclaim.
  apply (Hclaim (@storageProofMaintenance acceptingWorld afterNegotiation 126 [] [0]).1
           (reach_maintenance _ 126 [] [0] afterNegotiation_reachable)
           scenarioEntry 136 121);
    vm_compute; left; reflexivity.
Qed.

Lemma entry_in_both_schedules_witness :
  let e' := (@storageProofMaintenance acceptingWorld afterNegotiation 126 [] [0]).1 in
  In scenarioEntry (bucket (ForwardContracts (host e')) 136) /\
  In scenarioEntry (bucket (BackwardContracts (host e')) 121).
Proof.
  destruct (@entry_in_both_schedules acceptingWorld afterNegotiation 126 0 scenarioEntry)
    as [_ Hboth].
  - vm_compute. left. reflexivity.
  - destruct Hboth as [Hback Hfwd].
    + vm_compute. reflexivity.
    + split; [apply Hfwd|exact Hback].
      * vm_compute. reflexivity.
      * vm_compute. discriminate.
Defined.

(** C6, counterexample.  The entry is due at 126 but its file is gone, so
    no proof is built: after the block the entry is in no backward bucket at
    [126 - 6 + 1], and it has left the forward schedule. *)
Lemma failed_entry_not_moved :
  let e' := (@storageProofMaintenance acceptingWorld afterDiskLoss 126 [] [0]).1 in
  In scenarioEntry (bucket (ForwardContracts (host afterDiskLoss)) 126) /\
  ~ In scenarioEntry (bucket (BackwardContracts (host e')) (126 - StorageProofReorgDepth + 1)) /\
  ~ In scenarioEntry
      (bucket (ForwardContracts (host e')) (126 + ChallengeWindow (Contract scenarioEntry))) /\
  126 + ChallengeWindow (Contract scenarioEntry) < End_ (Contract scenarioEntry).
Proof.
  vm_compute. split; [left; reflexivity|]. split; [tauto|]. split; [tauto|reflexivity].
Qed.

Lemma built_entries_move_witness :
  let e' := (@applyBlock acceptingWorld afterNegotiation 126 []).1 in
  In scenarioEntry (bucket (BackwardContracts (host e')) 121) /\
  In scenarioEntry (bucket (ForwardContracts (host e')) 136) /\
  ForwardContracts (host e') !! 126 = None.
Proof.
  destruct (@built_entries_move acceptingWorld afterNegotiation 126 [] scenarioEntry)
    as (Hback & Hfwd & Hgone & _).
  - vm_compute. left. reflexivity.
  - vm_compute. reflexivity.
  - split; [exact Hback|]. split; [|exact Hgone].
    apply Hfwd.
    + vm_compute. discriminate.
    + left. vm_compute. reflexivity.
Defined.

(** A call out of step with the chain.  The host still has the scenario
    entry in the forward bucket at 126, which the driver never processed,
    when a one-block reorg at height 127 is reported: the re-applied block at
    126 moves the entry.  The callback contract excludes such a call. *)
Lemma reorg_changes_schedules :
  let e' := (@storageProofMaintenance acceptingWorld afterNegotiation 127 [0] [0]).1 in
  ~ ((forall x, bucket (ForwardContracts (host e')) x =
                bucket (ForwardContracts (host afterNegotiation)) x) /\
     BackwardContracts (host e') = BackwardContracts (host afterNegotiation)).
Proof.
  intros e' [Hfwd _]. specialize (Hfwd 126). vm_compute in Hfwd. discriminate.
Qed.

Lemma noop_reorg_keeps_schedules_witness :
  let e' := (@storageProofMaintenance acceptingWorld afterNegotiation 110 [0; 0] [0; 0]).1 in
  (forall x, bucket (ForwardContracts (host e')) x =
             bucket (ForwardContracts (host afterNegotiation)) x) /\
  BackwardContracts (host e') = BackwardContracts (host afterNegotiation).
Proof.
  apply (@noop_reorg_keeps_schedules acceptingWorld afterNegotiation 110 [0; 0] [0; 0]).
  - reflexivity.
  - intros j Hj. assert (Hcases : j = 1 \/ j = 2) by (simpl in Hj; lia).
    destruct Hcases as [-> | ->]; vm_compute; reflexivity.
Defined.

(** ** Validation and registration (C8, C9) *)

Lemma accepted_contract_scheduled_witness :
  ForwardContracts (host afterNegotiation) =
    <[126 := [scenarioEntry]]> (ForwardContracts (host freshHost)).
Proof.
  destruct (@accepted_contract_scheduled acceptingWorld freshHost freshHost
              afterNegotiation (proposalOf [scenarioContract])
              {| Inputs := [9; 1]; MinerFees := []; Outputs := [2];
                 FileContracts := [scenarioContract]; StorageProofs := [];
                 Signatures := [1] |}
              (goodSession 101) [] ["accept"])
    as (fc & Hfc & _ & Hfwd & _).
  - reflexivity.
  - vm_compute. reflexivity.
  - vm_compute. reflexivity.
  - injection Hfc as <-. rewrite Hfwd. vm_compute. reflexivity.
Defined.

Lemma size_out_of_bounds_rejected_witness :
  @considerContract acceptingWorld freshHost (proposalOf [oversizedContract]) =
    Return (freshHost, proposalOf [oversizedContract],
            Some "file is of incorrect size - filesize 2000, min 1, max 1000").
Proof.
  destruct (@size_out_of_bounds_rejected acceptingWorld freshHost
              (proposalOf [oversizedContract]) oversizedContract) as [Hc _].
  - reflexivity.
  - right. vm_compute. reflexivity.
  - rewrite Hc. vm_compute. reflexivity.
Defined.

(** * Further properties of the host *)

Module I64Facts.
Import I64.

Lemma int64_wrap_small z : - half <= z < half -> wrap z = z.
Proof.
  unfold wrap, half. intros Hz. rewrite Z.mod_small; lia.
Qed.

Lemma int64_wrap_add_l a b : wrap (wrap a + b) = wrap (a + b).
Proof.
  unfold wrap. f_equal.
  replace ((a + half) mod 2 ^ 64 - half + b + half) with ((a + half) mod 2 ^ 64 + b) by lia.
  rewrite Zplus_mod_idemp_l. f_equal. lia.
Qed.

Lemma int64_wrap_add_r a b : wrap (a + wrap b) = wrap (a + b).
Proof. rewrite (Z.add_comm a (wrap b)), int64_wrap_add_l. f_equal. lia. Qed.

End I64Facts.

Section Settings.
Context `{External}.

(** X1.  Two settings updates in a row leave the host exactly as the
    second one alone would: the remaining space follows the total storage
    of the settings, whatever the intermediate value was, overflow
    included. *)
Theorem SetHostSettings_compose (e : Environment) (a c : HostAnnouncement) :
  SetHostSettings (SetHostSettings e a) c = SetHostSettings e c.
Proof.
  unfold SetHostSettings. cbn [host set_host Settings SpaceRemaining Files Index
    ForwardContracts BackwardContracts height wallet hostDir disk].
  unfold set_host. cbn. f_equal. f_equal.
  unfold I64.add, I64.sub.
  rewrite I64Facts.int64_wrap_add_l, !I64Facts.int64_wrap_add_r.
  match goal with
  | |- I64.wrap (?s + I64.wrap ?x + ?y) = _ =>
      replace (s + I64.wrap x + y) with (s + y + I64.wrap x) by lia
  end.
  rewrite I64Facts.int64_wrap_add_r. f_equal. lia.
Qed.

(** X2.  A settings update keeps the amount of sold space: as long as the
    new remaining space fits an int64, total storage minus remaining space
    is the same before and after; the file mapping, the index counter and
    both schedules are not touched. *)
Theorem SetHostSettings_keeps_sold_space (e : Environment) (ha : HostAnnouncement) :
  let old := host e in
  let new := host (SetHostSettings e ha) in
  - 2 ^ 63 <= SpaceRemaining old + (TotalStorage ha - TotalStorage (Settings old)) < 2 ^ 63 ->
  TotalStorage ha - SpaceRemaining new = TotalStorage (Settings old) - SpaceRemaining old /\
  Settings new = ha /\
  Files new = Files old /\ Index new = Index old /\
  ForwardContracts new = ForwardContracts old /\
  BackwardContracts new = BackwardContracts old.
Proof.
  cbv zeta. intros Hrange. unfold SetHostSettings. cbn.
  split; [|repeat split; reflexivity].
  unfold I64.add, I64.sub. rewrite I64Facts.int64_wrap_add_r.
  rewrite I64Facts.int64_wrap_small; [lia|]. unfold I64.half. lia.
Qed.

End Settings.

Section Validator.
Context `{External}.

Lemma signNewInputs_signatures idx : forall w t w' t',
  signNewInputs w t idx = (w', t', None) ->
  exists sigs, length sigs = length idx /\
    t' = {| Inputs := Inputs t; MinerFees := MinerFees t; Outputs := Outputs t;
            FileContracts := FileContracts t; StorageProofs := StorageProofs t;
            Signatures := Signatures t ++ sigs |}.
Proof.
  induction idx as [|i idx IH]; intros w t w' t'; simpl.
  - intros [= _ <-]. exists []. rewrite app_nil_r. destruct t; auto.
  - destruct (SignTransaction w t i) as [w1 [err|sig]]; [discriminate|].
    intros Hs. apply IH in Hs as (sigs & Hlen & ->). exists (sig :: sigs).
    simpl. rewrite Hlen, <- app_assoc. auto.
Qed.

(** Turn the boolean tests of the validator into (in)equalities. *)
Ltac policy_facts :=
  repeat match goal with
         | Hb : (_ || _) = false |- _ => apply orb_false_iff in Hb as [? ?]
         | Hb : (_ <? _) = false |- _ => apply Z.ltb_ge in Hb
         | Hb : negb _ = false |- _ => apply negb_false_iff in Hb
         | Hb : (_ =? _) = true |- _ => apply Z.eqb_eq in Hb
         | Hb : (_ =? _)%nat = true |- _ => apply Nat.eqb_eq in Hb
         end.

(** X3.  A proposal the validator accepts satisfies every rule of the
    host's policy, as the code computes them: exactly one contract, file
    size within the bounds and within [uint64(SpaceRemaining)], remaining
    duration (end minus current height) and challenge window within their
    bounds, tolerance at least the minimum, valid-proof payout to the host's
    address and at least [Price * size * window], missed-proof payout to the
    empty address and at most [Burn * size * window], fund at least
    [(Burn + Price) * size * (End - Start)], all products and differences
    in [uint64]; and the consensus state found the finalized transaction
    valid. *)
Theorem considerContract_sound (e e' : Environment) (t t' : Transaction) :
  considerContract e t = Return (e', t', None) ->
  exists fc, FileContracts t = [fc] /\
    let st := Settings (host e) in
    MinFilesize st <= FileSize fc <= MaxFilesize st /\
    FileSize fc <= I64.to_u64 (SpaceRemaining (host e)) /\
    MinDuration st <= U64.sub (End_ fc) (height e) <= MaxDuration st /\
    MinChallengeWindow st <= ChallengeWindow fc <= MaxChallengeWindow st /\
    MinTolerance st <= Tolerance fc /\
    ValidProofAddress fc = CoinAddress_ st /\
    U64.mul (U64.mul (Price st) (FileSize fc)) (ChallengeWindow fc) <= ValidProofPayout fc /\
    MissedProofAddress fc = 0 /\
    MissedProofPayout fc <= U64.mul (U64.mul (Burn st) (FileSize fc)) (ChallengeWindow fc) /\
    U64.mul (U64.mul (U64.add (Burn st) (Price st)) (FileSize fc))
      (U64.sub (End_ fc) (Start fc)) <= ContractFund fc /\
    ValidTransaction t' = None.
Proof.
  unfold considerContract.
  destruct (FileContracts t) as [|fc [|fc' rest]] eqn:Hfc; [discriminate| |simpl; discriminate].
  cbn [length Nat.eqb negb].
  repeat match goal with
         | |- context [if ?b then _ else _] => destruct b eqn:?; [discriminate|]
         end.
  destruct (FundTransaction _ _ _) as [w1 [err|[ins outs]]]; [discriminate|].
  destruct (signNewInputs _ _ _) as [[w2 nt2] [err|]]; [discriminate|].
  destruct (ValidTransaction nt2) eqn:Hv; [discriminate|].
  intros [= _ <-]. exists fc. split; [reflexivity|]. cbv zeta.
  policy_facts. unfold emptyAddress in *. repeat split; try lia; assumption.
Qed.

(** X4.  Conversely, a proposal with one contract that satisfies every
    rule is accepted whenever the wallet funds the burn, signs each input it
    added and the consensus state finds the result valid; the transaction
    returned is the signed one and only the wallet has changed. *)
Theorem considerContract_complete (e : Environment) (t nt2 : Transaction) (fc : FileContract)
    (w1 w2 : Wallet) (ins outs : list Z) :
  FileContracts t = [fc] ->
  let st := Settings (host e) in
  MinFilesize st <= FileSize fc <= MaxFilesize st ->
  FileSize fc <= I64.to_u64 (SpaceRemaining (host e)) ->
  MinDuration st <= U64.sub (End_ fc) (height e) <= MaxDuration st ->
  MinChallengeWindow st <= ChallengeWindow fc <= MaxChallengeWindow st ->
  MinTolerance st <= Tolerance fc ->
  ValidProofAddress fc = CoinAddress_ st ->
  U64.mul (U64.mul (Price st) (FileSize fc)) (ChallengeWindow fc) <= ValidProofPayout fc ->
  MissedProofAddress fc = 0 ->
  MissedProofPayout fc <= U64.mul (U64.mul (Burn st) (FileSize fc)) (ChallengeWindow fc) ->
  U64.mul (U64.mul (U64.add (Burn st) (Price st)) (FileSize fc))
    (U64.sub (End_ fc) (Start fc)) <= ContractFund fc ->
  FundTransaction (wallet e)
    (U64.mul (U64.mul (Burn st) (FileSize fc)) (U64.sub (End_ fc) (Start fc))) t
    = (w1, inr (ins, outs)) ->
  signNewInputs w1 (add_funding t ins outs) (seq (length (Inputs t)) (length ins))
    = (w2, nt2, None) ->
  ValidTransaction nt2 = None ->
  considerContract e t = Return (set_wallet e w2, nt2, None).
Proof.
  intros Hfc st Hsize Hspace Hdur Hwin Htol Haddr Hpay Hmaddr Hburn Hfund Hf Hs Hv.
  unfold considerContract. rewrite Hfc. cbn [length Nat.eqb negb]. fold st.
  repeat match goal with
         | |- context [(?a <? ?b) || (?c <? ?d)] =>
             replace ((a <? b) || (c <? d)) with false
               by (symmetry; apply orb_false_iff; split; apply Z.ltb_ge; lia)
         | |- context [if ?a <? ?b then _ else _] =>
             replace (a <? b) with false by (symmetry; apply Z.ltb_ge; lia)
         | |- context [if negb (?a =? ?b) then _ else _] =>
             replace (a =? b) with true
               by (symmetry; apply Z.eqb_eq; unfold emptyAddress; congruence)
         end.
  cbn [negb]. rewrite Hf. cbn [add_funding Inputs].
  rewrite length_app, Nat.add_comm, Nat.add_sub.
  change ({| Inputs := Inputs t ++ ins; MinerFees := MinerFees t; Outputs := Outputs t ++ outs;
             FileContracts := FileContracts t; StorageProofs := StorageProofs t;
             Signatures := Signatures t |}) with (add_funding t ins outs).
  rewrite Hs, Hv. reflexivity.
Qed.

(** X5.  The transaction the validator returns on acceptance is the
    proposal with the wallet's inputs and outputs appended and one signature
    appended per added input; the client's inputs, outputs, fees, contracts
    and signatures are still there, in place. *)
Theorem considerContract_extends_proposal (e e' : Environment) (t t' : Transaction) :
  considerContract e t = Return (e', t', None) ->
  exists ins outs sigs,
    length sigs = length ins /\
    Inputs t' = Inputs t ++ ins /\ Outputs t' = Outputs t ++ outs /\
    Signatures t' = Signatures t ++ sigs /\
    MinerFees t' = MinerFees t /\ FileContracts t' = FileContracts t /\
    StorageProofs t' = StorageProofs t.
Proof.
  unfold considerContract.
  destruct (FileContracts t) as [|fc rest] eqn:Hfc; [discriminate|].
  repeat match goal with
         | |- context [if ?b then _ else _] => destruct b; [discriminate|]
         end.
  destruct (FundTransaction _ _ _) as [w1 [err|[ins outs]]]; [discriminate|].
  destruct (signNewInputs _ _ _) as [[w2 nt2] [err|]] eqn:Hs; [discriminate|].
  destruct (ValidTransaction nt2); [discriminate|].
  intros [= _ <-]. apply signNewInputs_signatures in Hs as (sigs & Hlen & ->).
  rewrite length_seq in Hlen. cbn [add_funding Inputs] in Hlen. rewrite length_app in Hlen.
  exists ins, outs, sigs. cbn. rewrite Hfc. repeat split; try reflexivity. lia.
Qed.

(** X6.  A single-contract proposal whose file size is within the size
    bounds but larger than [uint64(SpaceRemaining)] is rejected with the
    capacity reason, before any other rule is looked at and without touching
    the wallet. *)
Theorem capacity_rejected (e : Environment) (t : Transaction) (fc : FileContract) :
  FileContracts t = [fc] ->
  MinFilesize (Settings (host e)) <= FileSize fc <= MaxFilesize (Settings (host e)) ->
  I64.to_u64 (SpaceRemaining (host e)) < FileSize fc ->
  considerContract e t =
    Return (e, t, Some "host is at capacity and can not take more files.").
Proof.
  intros Hfc Hsize Hspace. unfold considerContract. rewrite Hfc. cbn [length Nat.eqb negb].
  replace ((FileSize fc <? MinFilesize (Settings (host e)))
           || (MaxFilesize (Settings (host e)) <? FileSize fc)) with false
    by (symmetry; apply orb_false_iff; split; apply Z.ltb_ge; lia).
  replace (I64.to_u64 (SpaceRemaining (host e)) <? FileSize fc) with true
    by (symmetry; apply Z.ltb_lt; lia).
  reflexivity.
Qed.

End Validator.

Section Sessions.
Context `{External}.

Ltac walk_session Hn :=
  repeat match type of Hn with
         | context [match ?x with _ => _ end] =>
             match x with
             | context [match _ with _ => _ end] => fail 1
             | _ => let E := fresh "Hstep" in destruct x eqn:E
             end
         end.

Lemma copyN_complete (s : Session) (n : Z) (content : list Byte.byte) :
  copyN s n = (content, None) ->
  (n <= 0 /\ content = []) \/
  (0 < n <= Z.of_nat (length (upload s)) /\ content = take (Z.to_nat n) (upload s)).
Proof.
  unfold copyN. destruct (Z.leb_spec n 0) as [Hn|Hn].
  - intros [= <-]. left. auto.
  - destruct (Z.ltb_spec (Z.of_nat (length (upload s))) n) as [Hl|Hl]; [discriminate|].
    intros [= <-]. right. split; [lia|reflexivity].
Qed.

(** What a session that ends without error after an accepted proposal has
    done, step by step. *)
Lemma successful_session (e e1 e' : Environment) (t0 t1 : Transaction) (s : Session)
    (data : list Byte.byte) (sent : list string) :
  Unmarshal data = (t0, None) ->
  considerContract e t0 = Return (e1, t1, None) ->
  NegotiateContract e s data = Return (e', sent, None) ->
  exists fc content,
    FileContracts t0 = [fc] /\ FileContracts t1 = [fc] /\ sent = [AcceptContractResponse] /\
    copyN s (I64.wrap (FileSize fc)) = (content, None) /\
    ReaderMerkleRoot content (CalculateSegments (FileSize fc)) = (FileMerkleRoot fc, None) /\
    height_after_upload s < U64.sub (Start fc) 2 /\
    AcceptTransaction t1 = None /\
    height e' = height_after_upload s /\ wallet e' = wallet e1 /\ hostDir e' = hostDir e /\
    disk e' = <[hostDir e +:+ pretty (Index (host e)) := content]> (disk e) /\
    Files (host e') = <[FileMerkleRoot fc := pretty (Index (host e))]> (Files (host e)) /\
    Index (host e') = I64.add (Index (host e)) 1 /\
    ForwardContracts (host e') =
      bucket_append (ForwardContracts (host e)) (U64.add (Start fc) StorageProofReorgDepth)
        {| ID := FileContractID t1 0; Contract := fc |}.
Proof.
  intros Hu Hc Hn.
  destruct (considerContract_accepts_one _ _ _ _ Hc) as [fc Hfc].
  destruct (considerContract_frame _ _ _ _ _ Hc) as (Hh & Hd & _ & Hdir & Hfc1).
  unfold NegotiateContract in Hn. rewrite Hu, Hc, Hfc1, Hfc in Hn.
  destruct (conn_write s AcceptContractResponse); [discriminate|].
  destruct (create_result s); [discriminate|].
  destruct (copyN s _) as [content [err|]] eqn:Hcopy; [discriminate|].
  destruct (seek_result s); [discriminate|].
  destruct (ReaderMerkleRoot _ _) as [root [err|]] eqn:Hroot; [discriminate|].
  destruct (root =? FileMerkleRoot fc) eqn:Heq; [|discriminate]. cbn [negb] in Hn.
  apply Z.eqb_eq in Heq. subst root.
  cbn [height set_height] in Hn.
  destruct (Z.leb_spec (U64.sub (Start fc) 2) (height_after_upload s)) as [Hl|Hl];
    [discriminate|].
  destruct (AcceptTransaction t1) eqn:Ha; [discriminate|].
  injection Hn as <- <-. exists fc, content. cbn. rewrite Hh, Hd, Hdir.
  repeat split; try assumption; try reflexivity.
  rewrite Hfc in Hfc1. rewrite <- Hfc1. reflexivity.
  apply insert_insert_eq.
Qed.

Lemma createStorageProof_recorded (e : Environment) (ce : ContractEntry) (h : BlockHeight)
    (name : string) (content base : list Byte.byte) (w : BlockHeight) (i : Z)
    (hashSet : list Hash) :
  Files (host e) !! FileMerkleRoot (Contract ce) = Some name ->
  disk e !! (hostDir e +:+ name) = Some content ->
  WindowIndex (Contract ce) h = (w, None) ->
  StorageProofSegmentIndex (ID ce) w = (i, None) ->
  BuildReaderProof content (CalculateSegments (FileSize (Contract ce))) i = (base, hashSet, None) ->
  createStorageProof e ce h =
    ({| sp_ContractID := ID ce; sp_WindowIndex := w; sp_Segment := base;
        sp_HashSet := hashSet |}, None).
Proof.
  intros Hf Hd Hw Hi Hb. unfold createStorageProof, os_Open.
  rewrite Hf. cbn [from_option id]. rewrite Hd, Hw, Hi, Hb. reflexivity.
Qed.

(** X7.  Upload and retrieval round trip.  After a session that accepted
    the proposal and ended without error, retrieving the contract's Merkle
    root yields the stored bytes without error; these are a prefix of what
    the client sent, their Merkle root over the contract's segment count is
    the committed root, and for a file size in (0, 2^63) they are exactly
    the first [FileSize] bytes of the upload. *)
Theorem upload_round_trip (e e1 e' : Environment) (t0 t1 : Transaction) (s : Session)
    (data : list Byte.byte) (sent : list string) :
  Unmarshal data = (t0, None) ->
  considerContract e t0 = Return (e1, t1, None) ->
  NegotiateContract e s data = Return (e', sent, None) ->
  exists fc content,
    FileContracts t0 = [fc] /\
    RetrieveFile e' (FileMerkleRoot fc) = (content, None) /\
    ReaderMerkleRoot content (CalculateSegments (FileSize fc)) = (FileMerkleRoot fc, None) /\
    content `prefix_of` upload s /\
    (0 < FileSize fc < 2 ^ 63 ->
     content = take (Z.to_nat (FileSize fc)) (upload s) /\
     Z.of_nat (length content) = FileSize fc).
Proof.
  intros Hu Hc Hn.
  destruct (successful_session _ _ _ _ _ _ _ _ Hu Hc Hn)
    as (fc & content & Hfc & _ & _ & Hcopy & Hroot & _ & _ & _ & _ & Hdir & Hdisk & Hfiles & _).
  exists fc, content. split; [exact Hfc|]. split; [|split; [exact Hroot|]].
  - unfold RetrieveFile. rewrite Hfiles, lookup_insert_eq, Hdir, Hdisk, lookup_insert_eq.
    reflexivity.
  - apply copyN_complete in Hcopy as [[Hle ->]|[Hn' ->]].
    + split; [apply prefix_nil|]. intros Hsize.
      rewrite I64Facts.int64_wrap_small in Hle by (unfold I64.half; lia). lia.
    + split; [apply prefix_take|]. intros Hsize.
      rewrite I64Facts.int64_wrap_small in Hn' |- * by (unfold I64.half; lia).
      split; [reflexivity|]. rewrite length_take. lia.
Qed.

(** X8.  The proof of an accepted contract is built from the uploaded
    bytes: after a session that ended without error, [createStorageProof]
    for the entry the session scheduled succeeds at every height at which
    the window index, the segment index and the proof builder succeed, and
    the proof it returns is the builder's proof over the stored upload. *)
Theorem proof_reads_upload (e e1 e' : Environment) (t0 t1 : Transaction) (s : Session)
    (data : list Byte.byte) (sent : list string) (fc : FileContract) (h w : BlockHeight)
    (i : Z) (base : list Byte.byte) (hashSet : list Hash) :
  Unmarshal data = (t0, None) ->
  considerContract e t0 = Return (e1, t1, None) ->
  NegotiateContract e s data = Return (e', sent, None) ->
  FileContracts t0 = [fc] ->
  WindowIndex fc h = (w, None) ->
  StorageProofSegmentIndex (FileContractID t1 0) w = (i, None) ->
  BuildReaderProof (take (Z.to_nat (I64.wrap (FileSize fc))) (upload s))
    (CalculateSegments (FileSize fc)) i = (base, hashSet, None) ->
  createStorageProof e' {| ID := FileContractID t1 0; Contract := fc |} h =
    ({| sp_ContractID := FileContractID t1 0; sp_WindowIndex := w; sp_Segment := base;
        sp_HashSet := hashSet |}, None).
Proof.
  intros Hu Hc Hn Hfc Hw Hi Hb.
  destruct (successful_session _ _ _ _ _ _ _ _ Hu Hc Hn)
    as (fc' & content & Hfc' & _ & _ & Hcopy & _ & _ & _ & _ & _ & Hdir & Hdisk & Hfiles & _).
  rewrite Hfc in Hfc'. injection Hfc' as <-.
  assert (Hcontent : content = take (Z.to_nat (I64.wrap (FileSize fc))) (upload s)).
  { apply copyN_complete in Hcopy as [[Hle ->]|[_ ->]]; [|reflexivity].
    replace (Z.to_nat (I64.wrap (FileSize fc))) with 0%nat by lia. reflexivity. }
  subst content.
  eapply (createStorageProof_recorded e' {| ID := FileContractID t1 0; Contract := fc |});
    cbn [ID Contract]; try eassumption.
  - rewrite Hfiles. apply lookup_insert_eq.
  - rewrite Hdir, Hdisk. apply lookup_insert_eq.
Qed.

(** X9.  A short upload aborts the session.  When the accepted contract
    asks for a file of a size in (0, 2^63), the acceptance message is
    written, the file is created and the connection delivers fewer bytes
    than that, the session returns the transfer's failure (EOF when the
    stream just ended), the partial file is removed and the host is as
    before. *)
Theorem short_upload_aborts (e e1 : Environment) (t0 t1 : Transaction) (fc : FileContract)
    (s : Session) (data : list Byte.byte) :
  Unmarshal data = (t0, None) ->
  considerContract e t0 = Return (e1, t1, None) ->
  FileContracts t0 = [fc] ->
  conn_write s AcceptContractResponse = None ->
  create_result s = None ->
  0 < FileSize fc < 2 ^ 63 ->
  Z.of_nat (length (upload s)) < FileSize fc ->
  exists e',
    NegotiateContract e s data =
      Return (e', [AcceptContractResponse], Some (default "EOF" (copy_fault s))) /\
    host e' = host e /\
    disk e' = delete (hostDir e +:+ pretty (Index (host e))) (disk e).
Proof.
  intros Hu Hc Hfc Hw Hcr Hsize Hshort.
  destruct (considerContract_frame _ _ _ _ _ Hc) as (Hh & Hd & _ & Hdir & Hfc1).
  unfold NegotiateContract. rewrite Hu, Hc, Hw, Hcr, Hfc1, Hfc.
  unfold copyN. rewrite I64Facts.int64_wrap_small by (unfold I64.half; lia).
  destruct (Z.leb_spec (FileSize fc) 0) as [Hle|_]; [lia|].
  destruct (Z.ltb_spec (Z.of_nat (length (upload s))) (FileSize fc)) as [_|Hge]; [|lia].
  eexists. split; [reflexivity|]. cbn. rewrite Hh, Hd, Hdir. split; [reflexivity|].
  rewrite insert_insert_eq. apply delete_insert_eq.
Qed.

(** X10.  No session takes a registration back: whatever the session does
    and however it ends, every recorded root is still recorded, the index
    counter is unchanged or one higher, and every forward bucket still
    starts with the entries it held. *)
Theorem session_keeps_registrations (e e' : Environment) (s : Session) (data : list Byte.byte)
    (sent : list string) (r : option error) :
  NegotiateContract e s data = Return (e', sent, r) ->
  dom (Files (host e)) ⊆ dom (Files (host e')) /\
  (Index (host e') = Index (host e) \/ Index (host e') = I64.add (Index (host e)) 1) /\
  forall k, bucket (ForwardContracts (host e)) k `prefix_of`
            bucket (ForwardContracts (host e')) k.
Proof.
  unfold NegotiateContract. intros Hn.
  destruct (Unmarshal data) as [t0 [err|]]; [injection Hn as <- _ _; auto|].
  destruct (considerContract e t0) as [[[e1 t1] [reason|]]|msg] eqn:Hc; [| |discriminate];
    apply considerContract_frame in Hc as (Hh & _).
  - injection Hn as <- _ _. rewrite Hh. auto.
  - unfold abort_upload in Hn. walk_session Hn;
      try discriminate; injection Hn as <- _ _; cbn; rewrite Hh;
      (split; [try reflexivity; rewrite dom_insert; set_solver|]);
      (split; [auto|]); intros k; try reflexivity.
    rewrite bucket_append_lookup. apply prefix_app_r. reflexivity.
Qed.

(** X11.  Nothing is stored when a session ends before the transfer
    starts: if the proposal cannot be decoded, or it is rejected, or the
    acceptance message cannot be written, or the file cannot be created,
    then the host and the disk are as before. *)
Theorem early_end_stores_nothing (e e' : Environment) (s : Session) (data : list Byte.byte)
    (sent : list string) (r : option error) :
  NegotiateContract e s data = Return (e', sent, r) ->
  (Unmarshal data).2 <> None \/
  (exists e1 t1 reason, considerContract e (Unmarshal data).1 = Return (e1, t1, Some reason)) \/
  conn_write s AcceptContractResponse <> None \/
  create_result s <> None ->
  host e' = host e /\ disk e' = disk e.
Proof.
  unfold NegotiateContract. intros Hn Hearly.
  destruct (Unmarshal data) as [t0 [err|]]; [injection Hn as <- _ _; auto|].
  cbn [fst snd] in Hearly.
  destruct (considerContract e t0) as [[[e1 t1] [reason|]]|msg] eqn:Hc; [| |discriminate];
    apply considerContract_frame in Hc as (Hh & Hd & _).
  - injection Hn as <- _ _. auto.
  - destruct (conn_write s AcceptContractResponse) as [werr|];
      [injection Hn as <- _ _; auto|].
    destruct (create_result s) as [cerr|]; [injection Hn as <- _ _; auto|].
    destruct Hearly as [Hx|[(? & ? & ? & Hx)|[Hx|Hx]]]; congruence.
Qed.

End Sessions.

Section Maintenance.
Context `{External}.

Lemma set_host_id (e : Environment) : set_host e (host e) = e.
Proof. destruct e. reflexivity. Qed.

Lemma set_wallet_id (e : Environment) : set_wallet e (wallet e) = e.
Proof. destruct e. reflexivity. Qed.

Lemma reschedule_base (hst : Host) (h : BlockHeight) (ce : ContractEntry) :
  Settings (reschedule hst h ce) = Settings hst /\
  SpaceRemaining (reschedule hst h ce) = SpaceRemaining hst /\
  Files (reschedule hst h ce) = Files hst /\
  Index (reschedule hst h ce) = Index hst.
Proof. unfold reschedule. destruct (_ <? _); repeat split; reflexivity. Qed.

(** The inner loop only replaces the host, and in the host only the
    schedules. *)
Lemma proveDue_base (h : BlockHeight) (entries : list ContractEntry) :
  forall (e : Environment) (proofs : list StorageProof),
  exists hst,
    (proveDue e h entries proofs).1 = set_host e hst /\
    Settings hst = Settings (host e) /\ SpaceRemaining hst = SpaceRemaining (host e) /\
    Files hst = Files (host e) /\ Index hst = Index (host e).
Proof.
  induction entries as [|ce rest IH]; intros e proofs; cbn [proveDue].
  - exists (host e). rewrite set_host_id. repeat split; reflexivity.
  - destruct (createStorageProof e ce h) as [proof [err|]]; [apply IH|].
    destruct (IH (set_host e (reschedule (host e) h ce)) (proofs ++ [proof]))
      as (hst & -> & Hs & Hr & Hf & Hi).
    destruct (reschedule_base (host e) h ce) as (Hs' & Hr' & Hf' & Hi').
    exists hst. cbn [host set_host] in *. repeat split; first [reflexivity | congruence].
Qed.

Lemma applyPhase_base (applied : list BlockID) :
  forall (e : Environment) (h : BlockHeight) (proofs : list StorageProof),
  exists hst,
    (applyPhase e h applied proofs).1.1 = set_host e hst /\
    Settings hst = Settings (host e) /\ SpaceRemaining hst = SpaceRemaining (host e) /\
    Files hst = Files (host e) /\ Index hst = Index (host e).
Proof.
  induction applied as [|b rest IH]; intros e h proofs; cbn [applyPhase].
  - exists (host e). rewrite set_host_id. repeat split; reflexivity.
  - unfold applyBlock.
    destruct (proveDue_base h (bucket (ForwardContracts (host e)) h) e proofs)
      as (hst1 & He1 & Hs1 & Hr1 & Hf1 & Hi1).
    destruct (proveDue e h _ proofs) as [e1 proofs1]. cbn [fst] in He1. subst e1.
    cbn [host set_host].
    destruct (IH (set_host (set_host e hst1) (set_forward hst1 (delete h (ForwardContracts hst1))))
                (U64.add h 1) proofs1) as (hst & -> & Hs & Hr & Hf & Hi).
    exists hst. cbn [host set_host set_forward Settings SpaceRemaining Files Index] in *.
    repeat split; first [reflexivity | congruence].
Qed.

Lemma submitProofs_wallet (e : Environment) (proofs : list StorageProof) :
  exists w, (submitProofs e proofs).1 = set_wallet e w.
Proof.
  unfold submitProofs. destruct proofs as [|p ps].
  - exists (wallet e). symmetry. apply set_wallet_id.
  - destruct (FundTransaction _ _ _) as [w [err|[ins outs]]];
      destruct (signAll _ _ _) as [w2 txn2]; exists w2; reflexivity.
Qed.

Lemma maintenance_base (e : Environment) (h : BlockHeight) (rewound applied : list BlockID) :
  exists hst w,
    (storageProofMaintenance e h rewound applied).1 = set_wallet (set_host e hst) w /\
    Settings hst = Settings (host e) /\ SpaceRemaining hst = SpaceRemaining (host e) /\
    Files hst = Files (host e) /\ Index hst = Index (host e).
Proof.
  unfold storageProofMaintenance.
  destruct (rewindPhase e h rewound []) as [h1 proofs1].
  destruct (applyPhase_base applied e h1 proofs1) as (hst & He & Hbase).
  destruct (applyPhase e h1 applied proofs1) as [[e2 h2] proofs2]. cbn [fst] in He. subst e2.
  destruct (submitProofs_wallet (set_host e hst) proofs2) as [w ->].
  exists hst, w. split; [reflexivity|exact Hbase].
Qed.

(** X12.  The maintenance driver works on the schedules and the wallet
    only: whatever blocks it is given, the chain height it sees, the host
    directory, the disk, the settings, the remaining space, the file mapping
    and the index counter are the same afterwards.  In particular it frees
    no space and deletes no file when a contract runs out. *)
Theorem maintenance_keeps_files (e : Environment) (h : BlockHeight)
    (rewound applied : list BlockID) :
  let e' := (storageProofMaintenance e h rewound applied).1 in
  height e' = height e /\ hostDir e' = hostDir e /\ disk e' = disk e /\
  Settings (host e') = Settings (host e) /\
  SpaceRemaining (host e') = SpaceRemaining (host e) /\
  Files (host e') = Files (host e) /\ Index (host e') = Index (host e).
Proof.
  cbv zeta.
  destruct (maintenance_base e h rewound applied) as (hst & w & -> & Hs & Hr & Hf & Hi).
  cbn. repeat split; assumption.
Qed.

(** X13.  Rewound blocks alone never move an entry: a call without
    applied blocks returns the host it was given (both schedules included),
    however many blocks were rewound. *)
Theorem rewind_keeps_host (e : Environment) (h : BlockHeight) (rewound : list BlockID) :
  host (storageProofMaintenance e h rewound []).1 = host e.
Proof.
  unfold storageProofMaintenance.
  destruct (rewindPhase e h rewound []) as [h1 proofs1]. cbn [applyPhase].
  apply submitProofs_host.
Qed.

Lemma regenerate_proofs (e : Environment) (h : BlockHeight) (entries : list ContractEntry) :
  forall proofs,
  regenerate e h entries proofs =
  proofs ++ map (fun ce => (createStorageProof e ce h).1) (List.filter (proofBuilt e h) entries).
Proof.
  induction entries as [|ce rest IH]; intros proofs; cbn [regenerate List.filter].
  - rewrite app_nil_r. reflexivity.
  - unfold proofBuilt at 1.
    destruct (createStorageProof e ce h) as [proof [err|]] eqn:Hp; cbn [snd]; rewrite IH.
    + reflexivity.
    + cbn [map]. rewrite Hp, <- app_assoc. reflexivity.
Qed.

Lemma proveDue_proofs (h : BlockHeight) (entries : list ContractEntry) :
  forall (e : Environment) (proofs : list StorageProof),
  (proveDue e h entries proofs).2 =
  proofs ++ map (fun ce => (createStorageProof e ce h).1) (List.filter (proofBuilt e h) entries).
Proof.
  induction entries as [|ce rest IH]; intros e proofs; cbn [proveDue List.filter].
  - rewrite app_nil_r. reflexivity.
  - unfold proofBuilt at 1.
    destruct (createStorageProof e ce h) as [proof [err|]] eqn:Hp; cbn [snd].
    + apply IH.
    + rewrite IH. cbn [map]. rewrite Hp, <- app_assoc. cbn [fst app]. f_equal. f_equal.
      rewrite (List.filter_ext _ (proofBuilt e h)).
      * apply map_ext. intros x.
        rewrite createStorageProof_files by apply reschedule_files. reflexivity.
      * intros x. unfold proofBuilt.
        rewrite createStorageProof_files by apply reschedule_files. reflexivity.
Qed.

Lemma submitProofs_carries (e : Environment) (proofs : list StorageProof) :
  match (submitProofs e proofs).2 with
  | None => proofs = []
  | Some txn => proofs <> [] /\ StorageProofs txn = proofs /\ MinerFees txn = [10] /\
                FileContracts txn = []
  end.
Proof.
  assert (Hsign : forall idx w t, StorageProofs (signAll w t idx).2 = StorageProofs t /\
                    MinerFees (signAll w t idx).2 = MinerFees t /\
                    FileContracts (signAll w t idx).2 = FileContracts t).
  { induction idx as [|i idx IH]; intros w t; cbn [signAll]; [auto|].
    destruct (SignTransaction w t i) as [w' [err|sig]]; [apply IH|].
    destruct (IH w' (add_signature t sig)) as (-> & -> & ->). auto. }
  unfold submitProofs. destruct proofs as [|p ps]; [reflexivity|].
  destruct (FundTransaction _ _ _) as [w [err|[ins outs]]];
    match goal with |- context [signAll ?w ?t ?idx] =>
      destruct (Hsign idx w t) as (Hp & Hm & Hc); destruct (signAll w t idx) as [w2 txn2]
    end; cbn [fst snd] in *; rewrite Hp, Hm, Hc; repeat split; try reflexivity; discriminate.
Qed.

(** X14.  One block, one transaction.  A call that rewinds a single block
    at [h] submits a transaction exactly when some entry of the backward
    bucket at [h] has a proof that can be built; a call that applies a
    single block at [h] does so for the forward bucket at [h].  Either way
    the transaction carries one proof per such entry, in bucket order, a
    single miner fee of 10 and no file contract. *)
Theorem one_block_transaction (e : Environment) (h : BlockHeight) (b : BlockID) :
  let proofs_of (entries : list ContractEntry) :=
    map (fun ce => (createStorageProof e ce h).1) (List.filter (proofBuilt e h) entries) in
  let submitted (r : option Transaction) (proofs : list StorageProof) :=
    match r with
    | None => proofs = []
    | Some txn => proofs <> [] /\ StorageProofs txn = proofs /\ MinerFees txn = [10] /\
                  FileContracts txn = []
    end in
  submitted (storageProofMaintenance e h [b] []).2
    (proofs_of (bucket (BackwardContracts (host e)) h)) /\
  submitted (storageProofMaintenance e h [] [b]).2
    (proofs_of (bucket (ForwardContracts (host e)) h)).
Proof.
  cbv zeta. split; unfold storageProofMaintenance; cbn [rewindPhase applyPhase].
  - rewrite regenerate_proofs. cbn [app]. apply submitProofs_carries.
  - unfold applyBlock.
    pose proof (proveDue_proofs h (bucket (ForwardContracts (host e)) h) e []) as Hp.
    destruct (proveDue e h _ []) as [e1 proofs1]. cbn [snd app] in Hp. subst proofs1.
    apply submitProofs_carries.
Qed.

Lemma applyPhase_backward_prefix (applied : list BlockID) :
  forall (e : Environment) (h : BlockHeight) (proofs : list StorageProof) (k : BlockHeight),
  bucket (BackwardContracts (host e)) k `prefix_of`
  bucket (BackwardContracts (host (applyPhase e h applied proofs).1.1)) k.
Proof.
  induction applied as [|b rest IH]; intros e h proofs k; cbn [applyPhase].
  - reflexivity.
  - destruct (applyBlock_schedules e h proofs) as (_ & _ & _ & Hbw).
    destruct (applyBlock e h proofs) as [e1 proofs1]. cbn [fst] in Hbw.
    etransitivity; [|apply IH]. rewrite Hbw. apply prefix_app_r. reflexivity.
Qed.

(** X15.  The backward schedule is never pruned: after any call of the
    driver every backward bucket still starts with the entries it held
    before, in the same order. *)
Theorem backward_never_pruned (e : Environment) (h : BlockHeight)
    (rewound applied : list BlockID) (k : BlockHeight) :
  bucket (BackwardContracts (host e)) k `prefix_of`
  bucket (BackwardContracts (host (storageProofMaintenance e h rewound applied).1)) k.
Proof.
  unfold storageProofMaintenance.
  destruct (rewindPhase e h rewound []) as [h1 proofs1].
  pose proof (applyPhase_backward_prefix applied e h1 proofs1 k) as Hp.
  destruct (applyPhase e h1 applied proofs1) as [[e2 h2] proofs2].
  rewrite submitProofs_host. exact Hp.
Qed.

Lemma applyPhase_moves (applied : list BlockID) :
  forall (e : Environment) (h : BlockHeight) (proofs : list StorageProof),
  let e' := (applyPhase e h applied proofs).1.1 in
  (forall k ce, In ce (bucket (ForwardContracts (host e')) k) ->
     exists k', In ce (bucket (ForwardContracts (host e)) k')) /\
  (forall k ce, In ce (bucket (BackwardContracts (host e')) k) ->
     In ce (bucket (BackwardContracts (host e)) k) \/
     exists k', In ce (bucket (ForwardContracts (host e)) k')).
Proof.
  induction applied as [|b rest IH]; intros e h proofs; cbv zeta; cbn [applyPhase].
  - split; intros k ce Hin; eauto.
  - destruct (applyBlock_schedules e h proofs) as (_ & Hgone & Hfw & Hbw).
    destruct (applyBlock e h proofs) as [e1 proofs1]. cbn [fst] in Hgone, Hfw, Hbw.
    assert (Hfwd1 : forall k ce, In ce (bucket (ForwardContracts (host e1)) k) ->
              exists k', In ce (bucket (ForwardContracts (host e)) k')).
    { intros k ce Hin. destruct (decide (k = h)) as [->|Hk].
      - unfold bucket at 1 in Hin. rewrite Hgone in Hin. destruct Hin.
      - rewrite (Hfw _ Hk) in Hin. apply in_app_or in Hin as [Hin|Hin]; [eauto|].
        apply List.filter_In in Hin as [Hin _]. eauto. }
    destruct (IH e1 (U64.add h 1) proofs1) as [Hf Hb]. split.
    + intros k ce Hin. apply Hf in Hin as [k' Hin]. eauto.
    + intros k ce Hin. apply Hb in Hin as [Hin|[k' Hin]]; [|right; eauto].
      rewrite Hbw in Hin. apply in_app_or in Hin as [Hin|Hin]; [left; exact Hin|right].
      destruct (k =? backwardHeight h); [|destruct Hin].
      apply List.filter_In in Hin as [Hin _]. eauto.
Qed.

(** X16.  The driver schedules nothing new: every entry found in a
    forward bucket after a call was in some forward bucket before it, and
    every entry found in a backward bucket after the call was in that
    backward bucket or in some forward bucket before it. *)
Theorem maintenance_only_moves (e : Environment) (h : BlockHeight)
    (rewound applied : list BlockID) :
  let e' := (storageProofMaintenance e h rewound applied).1 in
  (forall k ce, In ce (bucket (ForwardContracts (host e')) k) ->
     exists k', In ce (bucket (ForwardContracts (host e)) k')) /\
  (forall k ce, In ce (bucket (BackwardContracts (host e')) k) ->
     In ce (bucket (BackwardContracts (host e)) k) \/
     exists k', In ce (bucket (ForwardContracts (host e)) k')).
Proof.
  cbv zeta. unfold storageProofMaintenance.
  destruct (rewindPhase e h rewound []) as [h1 proofs1].
  pose proof (applyPhase_moves applied e h1 proofs1) as Hm. cbv zeta in Hm.
  destruct (applyPhase e h1 applied proofs1) as [[e2 h2] proofs2].
  rewrite submitProofs_host. exact Hm.
Qed.

(** ** Applying, then reorganizing *)

Lemma filter_none {A : Type} (f : A -> bool) (l : list A) :
  (forall x, In x l -> f x = false) -> List.filter f l = [].
Proof.
  induction l as [|x l IH]; intros Hall; [reflexivity|]. simpl.
  rewrite (Hall x) by (left; reflexivity). apply IH. intros y Hy. apply Hall. right. exact Hy.
Qed.

(** With heights and windows below 2^63 no sum wraps, so an entry is
    always rescheduled above the block that is being applied: the buckets of
    the heights already processed stay empty. *)
Lemma applyPhase_clears (applied : list BlockID) :
  forall (e : Environment) (h lo : BlockHeight) (proofs : list StorageProof),
  0 <= lo <= h -> h + Z.of_nat (length applied) < 2 ^ 63 ->
  (forall k ce, In ce (bucket (ForwardContracts (host e)) k) ->
     0 <= ChallengeWindow (Contract ce) < 2 ^ 63) ->
  (forall k, lo <= k < h -> bucket (ForwardContracts (host e)) k = []) ->
  forall k, lo <= k < h + Z.of_nat (length applied) ->
    bucket (ForwardContracts (host (applyPhase e h applied proofs).1.1)) k = [].
Proof.
  induction applied as [|b rest IH]; intros e h lo proofs Hlo Hmax Hwin Hbelow k Hk;
    cbn [applyPhase].
  - apply Hbelow. simpl in Hk. lia.
  - change (length (b :: rest)) with (S (length rest)) in *.
    destruct (applyBlock_schedules e h proofs) as (_ & Hgone & Hfw & _).
    destruct (applyBlock e h proofs) as [e1 proofs1]. cbn [fst] in Hgone, Hfw.
    assert (Hnext : U64.add h 1 = h + 1).
    { apply U64Facts.add_small. unfold U64.in_range, U64.modulus. lia. }
    rewrite Hnext. apply (IH e1 (h + 1) lo proofs1); try lia.
    + intros x ce Hin. destruct (decide (x = h)) as [->|Hx].
      * unfold bucket at 1 in Hin. rewrite Hgone in Hin. destruct Hin.
      * rewrite (Hfw _ Hx) in Hin. apply in_app_or in Hin as [Hin|Hin]; [eauto|].
        apply List.filter_In in Hin as [Hin _]. eauto.
    + intros x Hx. destruct (decide (x = h)) as [->|Hne].
      * unfold bucket. rewrite Hgone. reflexivity.
      * rewrite (Hfw _ Hne), Hbelow by lia. cbn [app]. apply filter_none.
        intros ce Hin. apply Hwin in Hin.
        assert (Hsum : nextProofHeight h ce = h + ChallengeWindow (Contract ce)).
        { apply U64Facts.add_small. unfold U64.in_range, U64.modulus. lia. }
        rewrite Hsum. destruct (Z.eqb_spec (h + ChallengeWindow (Contract ce)) x);
          [lia|]. rewrite andb_false_r. reflexivity.
Qed.

(** X17.  A reorganization right after the blocks were applied is a
    no-op on the schedules.  Let heights and challenge windows be below
    2^63.  After the driver has applied [n] blocks from height [h], a call
    at height [h + n] that rewinds [k <= n] blocks and applies as many again
    leaves the contents of every forward bucket and the whole backward
    schedule as the first call left them. *)
Theorem reorg_after_apply_is_noop (e : Environment) (h : BlockHeight)
    (applied rewound reapplied : list BlockID) :
  0 <= h -> h + Z.of_nat (length applied) < 2 ^ 63 ->
  (forall k ce, In ce (bucket (ForwardContracts (host e)) k) ->
     0 <= ChallengeWindow (Contract ce) < 2 ^ 63) ->
  length rewound = length reapplied -> (length rewound <= length applied)%nat ->
  let e1 := (storageProofMaintenance e h [] applied).1 in
  let e2 := (storageProofMaintenance e1 (h + Z.of_nat (length applied)) rewound reapplied).1 in
  (forall x, bucket (ForwardContracts (host e2)) x = bucket (ForwardContracts (host e1)) x) /\
  BackwardContracts (host e2) = BackwardContracts (host e1).
Proof.
  intros Hh Hmax Hwin Hlen Hk. cbv zeta.
  set (n := Z.of_nat (length applied)) in *.
  assert (Hclear : forall k, h <= k < h + n ->
            bucket (ForwardContracts (host (storageProofMaintenance e h [] applied).1)) k = []).
  { intros k Hin. unfold storageProofMaintenance. cbn [rewindPhase].
    pose proof (applyPhase_clears applied e h h [] ltac:(lia) Hmax Hwin ltac:(intros; lia) k Hin)
      as Hc.
    destruct (applyPhase e h applied []) as [[e2 h2] proofs2].
    rewrite submitProofs_host. exact Hc. }
  set (e1 := (storageProofMaintenance e h [] applied).1) in *.
  unfold storageProofMaintenance.
  destruct rewound as [|r rs].
  - destruct reapplied; [|discriminate]. simpl. split; reflexivity.
  - pose proof (rewindPhase_height e1 (r :: rs) (h + n) [] ltac:(discriminate)) as Hr.
    destruct (rewindPhase e1 (h + n) (r :: rs) []) as [h1 proofs1]. cbn [fst] in Hr. subst h1.
    set (k := Z.of_nat (length (r :: rs))) in *.
    assert (Hkn : 1 <= k <= n) by (unfold k, n; change (length (r :: rs)) with (S (length rs)) in *; lia).
    destruct (applyPhase_idle reapplied e1 (U64.wrap (h + n - k)) proofs1)
      as (fwd & He & Hp & Hb).
    + apply U64Facts.wrap_wrap.
    + intros i Hi. rewrite U64Facts.wrap_add_l.
      rewrite <- Hlen in Hi. fold k in Hi.
      rewrite U64Facts.wrap_small by (unfold U64.in_range, U64.modulus; lia).
      apply Hclear. lia.
    + destruct (applyPhase e1 (U64.wrap (h + n - k)) reapplied proofs1) as [[e2 h2] proofs2].
      cbn [fst] in He. rewrite submitProofs_host. subst e2. cbn.
      split; [exact Hb|reflexivity].
Qed.

(** ** Splitting a run of applied blocks *)

Lemma proveDue_wallet (h : BlockHeight) (entries : list ContractEntry) :
  forall (e : Environment) (proofs proofs' : list StorageProof) (w : Wallet),
  (proveDue (set_wallet e w) h entries proofs').1 = set_wallet (proveDue e h entries proofs).1 w.
Proof.
  induction entries as [|ce rest IH]; intros e proofs proofs' w; cbn [proveDue]; [reflexivity|].
  change (createStorageProof (set_wallet e w) ce h) with (createStorageProof e ce h).
  destruct (createStorageProof e ce h) as [proof [err|]]; [apply IH|].
  change (set_host (set_wallet e w) (reschedule (host (set_wallet e w)) h ce))
    with (set_wallet (set_host e (reschedule (host e) h ce)) w).
  apply IH.
Qed.

Lemma applyPhase_wallet (applied : list BlockID) :
  forall (e : Environment) (h : BlockHeight) (proofs proofs' : list StorageProof) (w : Wallet),
  (applyPhase (set_wallet e w) h applied proofs').1.1 =
  set_wallet (applyPhase e h applied proofs).1.1 w.
Proof.
  induction applied as [|b rest IH]; intros e h proofs proofs' w; cbn [applyPhase];
    [reflexivity|].
  unfold applyBlock.
  pose proof (proveDue_wallet h (bucket (ForwardContracts (host e)) h) e proofs proofs' w) as Hw.
  change (host (set_wallet e w)) with (host e).
  destruct (proveDue (set_wallet e w) h _ proofs') as [e1' p1'].
  destruct (proveDue e h _ proofs) as [e1 p1]. cbn [fst] in Hw. subst e1'.
  change (set_host (set_wallet e1 w)
            (set_forward (host (set_wallet e1 w))
               (delete h (ForwardContracts (host (set_wallet e1 w))))))
    with (set_wallet (set_host e1 (set_forward (host e1) (delete h (ForwardContracts (host e1))))) w).
  apply IH.
Qed.

Lemma applyPhase_app (a b : list BlockID) :
  forall (e : Environment) (h : BlockHeight) (proofs : list StorageProof),
  applyPhase e h (a ++ b) proofs =
  let '(e1, h1, proofs1) := applyPhase e h a proofs in applyPhase e1 h1 b proofs1.
Proof.
  induction a as [|x a IH]; intros e h proofs; cbn [app applyPhase]; [reflexivity|].
  destruct (applyBlock e h proofs) as [e1 proofs1]. apply IH.
Qed.

Lemma applyPhase_height (applied : list BlockID) :
  forall (e : Environment) (h : BlockHeight) (proofs : list StorageProof),
  U64.wrap h = h ->
  (applyPhase e h applied proofs).1.2 = U64.wrap (h + Z.of_nat (length applied)).
Proof.
  induction applied as [|b rest IH]; intros e h proofs Hh; cbn [applyPhase].
  - cbn. rewrite Z.add_0_r. symmetry. exact Hh.
  - destruct (applyBlock e h proofs) as [e1 proofs1].
    rewrite IH by apply U64Facts.wrap_wrap. unfold U64.add. rewrite U64Facts.wrap_add_l.
    f_equal. change (length (b :: rest)) with (S (length rest)). lia.
Qed.

(** X18.  Blocks may be reported in one call or in two.  For a valid
    starting height, applying the blocks [a] and then, in a second call at
    the height the first one reached, the blocks [b] leaves the host in the
    same state as applying [a ++ b] in one call; only the proofs travel in
    two transactions instead of one. *)
Theorem maintenance_split (e : Environment) (h : BlockHeight) (a b : list BlockID) :
  U64.wrap h = h ->
  let e1 := (storageProofMaintenance e h [] a).1 in
  host (storageProofMaintenance e1 (U64.wrap (h + Z.of_nat (length a))) [] b).1 =
  host (storageProofMaintenance e h [] (a ++ b)).1.
Proof.
  intros Hh. cbv zeta. unfold storageProofMaintenance. cbn [rewindPhase].
  rewrite applyPhase_app.
  pose proof (applyPhase_height a e h [] Hh) as Hheight.
  destruct (applyPhase e h a []) as [[e1 h1] proofs1]. cbn [fst snd] in Hheight. subst h1.
  destruct (submitProofs_wallet e1 proofs1) as [w ->].
  pose proof (applyPhase_wallet b e1 (U64.wrap (h + Z.of_nat (length a))) proofs1 [] w) as Hw.
  destruct (applyPhase (set_wallet e1 w) _ b []) as [[e2' h2'] proofs2'].
  destruct (applyPhase e1 _ b proofs1) as [[e2 h2] proofs2].
  cbn [fst] in Hw. subst e2'. rewrite !submitProofs_host. reflexivity.
Qed.

(** ** What every reachable host satisfies *)

(** X19.  On every host reached from a fresh one by settings changes,
    height changes, negotiation sessions and maintenance calls, the
    remaining space is the total storage of the current settings (as an
    int64): accepted contracts never show in it. *)
Theorem reachable_space_is_total (e : Environment) :
  reachable e ->
  SpaceRemaining (host e) = I64.wrap (TotalStorage (Settings (host e))).
Proof.
  induction 1 as [e Hcreate|e ha _ IH|e h _ IH|e e' s data sent err _ IH Hn|e h rw ap _ IH].
  - rewrite Hcreate. reflexivity.
  - unfold SetHostSettings. cbn. rewrite IH. unfold I64.add, I64.sub.
    rewrite I64Facts.int64_wrap_add_l, I64Facts.int64_wrap_add_r. f_equal. lia.
  - exact IH.
  - apply NegotiateContract_space in Hn as (-> & -> & _). exact IH.
  - destruct (maintenance_base e h rw ap) as (hst & w & -> & Hs & Hr & _).
    cbn. rewrite Hs, Hr. exact IH.
Qed.

End Maintenance.

Section Lookups.
Context `{External}.

(** X20.  What [createStorageProof] returns.  Next to an error the proof
    is the zero value.  Without an error the proof names the entry's
    contract, its window index is the one the contract gives for the state
    height, and its segment and hash set are those the proof builder
    returned for the file opened at the host directory followed by the
    recorded name (the empty name when the root is not recorded), at the
    segment index the consensus state gave. *)
Theorem createStorageProof_result (e : Environment) (ce : ContractEntry) (h : BlockHeight) :
  match createStorageProof e ce h with
  | (sp, Some _) => sp = zeroStorageProof
  | (sp, None) =>
      sp_ContractID sp = ID ce /\
      WindowIndex (Contract ce) h = (sp_WindowIndex sp, None) /\
      exists file i,
        disk e !! (hostDir e +:+
                   default "" (Files (host e) !! FileMerkleRoot (Contract ce))) = Some file /\
        StorageProofSegmentIndex (ID ce) (sp_WindowIndex sp) = (i, None) /\
        BuildReaderProof file (CalculateSegments (FileSize (Contract ce))) i =
          (sp_Segment sp, sp_HashSet sp, None)
  end.
Proof.
  unfold createStorageProof, os_Open.
  destruct (disk e !! _) as [file|] eqn:Hd; [|reflexivity].
  destruct (WindowIndex (Contract ce) h) as [w [err|]] eqn:Hw; [reflexivity|].
  destruct (StorageProofSegmentIndex (ID ce) w) as [i [err|]] eqn:Hi; [reflexivity|].
  destruct (BuildReaderProof file _ i) as [[base hashSet] [err|]] eqn:Hb; [reflexivity|].
  cbn. split; [reflexivity|]. split; [reflexivity|]. exists file, i. auto.
Qed.

(** X21.  Retrieval by root.  [RetrieveFile] reports "no record of that
    file" exactly when the root is not in the file mapping, and it returns
    bytes without error exactly when the root is recorded and the recorded
    file exists, the bytes being that file's content. *)
Theorem RetrieveFile_result (e : Environment) (merkle : Hash) :
  (Files (host e) !! merkle = None <->
   RetrieveFile e merkle = ([], Some "no record of that file")) /\
  (forall content,
     RetrieveFile e merkle = (content, None) <->
     exists filename, Files (host e) !! merkle = Some filename /\
                      disk e !! (hostDir e +:+ filename) = Some content).
Proof.
  unfold RetrieveFile. destruct (Files (host e) !! merkle) as [filename|].
  - destruct (disk e !! (hostDir e +:+ filename)) as [content0|] eqn:Hd.
    + split; [split; discriminate|]. intros content. split.
      * intros [= <-]. exists filename. auto.
      * intros (name & [= <-] & Hc). congruence.
    + split; [split; discriminate|]. intros content. split; [discriminate|].
      intros (name & [= <-] & Hc). congruence.
  - split; [split; reflexivity|]. intros content. split; [discriminate|].
    intros (name & Hn & _). discriminate.
Qed.

End Lookups.

(** * The further properties on the scenario *)

Lemma afterNegotiation_forward :
  ForwardContracts (host afterNegotiation) = {[ 126 := [scenarioEntry] ]}.
Proof. vm_compute. reflexivity. Qed.

Lemma SetHostSettings_keeps_sold_space_witness :
  TotalStorage enlargedSettings
    - SpaceRemaining (host (@SetHostSettings acceptingWorld afterNegotiation enlargedSettings))
  = TotalStorage (Settings (host afterNegotiation)) - SpaceRemaining (host afterNegotiation).
Proof.
  apply (@SetHostSettings_keeps_sold_space acceptingWorld afterNegotiation enlargedSettings).
  vm_compute. split; [discriminate|reflexivity].
Defined.

Lemma considerContract_sound_witness :
  exists fc, FileContracts (proposalOf [scenarioContract]) = [fc] /\
             MinFilesize scenarioSettings <= FileSize fc <= MaxFilesize scenarioSettings.
Proof.
  destruct (@considerContract_sound acceptingWorld freshHost freshHost
              (proposalOf [scenarioContract]) scenarioFinalized)
    as (fc & Hfc & Hsize & _).
  - vm_compute. reflexivity.
  - exists fc. split; [exact Hfc|exact Hsize].
Defined.

Lemma considerContract_complete_witness :
  @considerContract acceptingWorld freshHost (proposalOf [scenarioContract]) =
    Return (freshHost, scenarioFinalized, None).
Proof.
  apply (@considerContract_complete acceptingWorld freshHost (proposalOf [scenarioContract])
           scenarioFinalized scenarioContract tt tt [1] [2]);
    vm_compute; repeat split; first [reflexivity | discriminate].
Defined.

Lemma considerContract_extends_proposal_witness :
  exists ins outs sigs,
    length sigs = length ins /\
    Inputs scenarioFinalized = Inputs (proposalOf [scenarioContract]) ++ ins /\
    Outputs scenarioFinalized = Outputs (proposalOf [scenarioContract]) ++ outs /\
    Signatures scenarioFinalized = Signatures (proposalOf [scenarioContract]) ++ sigs /\
    MinerFees scenarioFinalized = MinerFees (proposalOf [scenarioContract]) /\
    FileContracts scenarioFinalized = FileContracts (proposalOf [scenarioContract]) /\
    StorageProofs scenarioFinalized = StorageProofs (proposalOf [scenarioContract]).
Proof.
  apply (@considerContract_extends_proposal acceptingWorld freshHost freshHost).
  vm_compute. reflexivity.
Defined.

Lemma capacity_rejected_witness :
  let e := @SetHostSettings acceptingWorld freshHost crampedSettings in
  considerContract e (proposalOf [scenarioContract]) =
    Return (e, proposalOf [scenarioContract],
            Some "host is at capacity and can not take more files.").
Proof.
  apply (@capacity_rejected acceptingWorld
           (@SetHostSettings acceptingWorld freshHost crampedSettings)
           (proposalOf [scenarioContract]) scenarioContract).
  - reflexivity.
  - vm_compute. split; discriminate.
  - vm_compute. reflexivity.
Defined.

Lemma several_contracts_rejected_witness :
  @considerContract acceptingWorld freshHost (proposalOf [scenarioContract; earlyContract]) =
    Return (freshHost, proposalOf [scenarioContract; earlyContract],
            Some "transaction must have exactly one contract").
Proof.
  apply (@several_contracts_rejected acceptingWorld freshHost
           (proposalOf [scenarioContract; earlyContract]) scenarioContract earlyContract []).
  reflexivity.
Defined.

Lemma upload_round_trip_witness :
  exists content,
    @RetrieveFile acceptingWorld afterNegotiation 500 = (content, None) /\
    Z.of_nat (length content) = 500.
Proof.
  destruct (@upload_round_trip acceptingWorld freshHost freshHost afterNegotiation
              (proposalOf [scenarioContract]) scenarioFinalized (goodSession 101) []
              ["accept"])
    as (fc & content & Hfc & Hget & _ & _ & Hsize).
  - reflexivity.
  - vm_compute. reflexivity.
  - vm_compute. reflexivity.
  - injection Hfc as <-. exists content. split; [exact Hget|].
    apply Hsize. vm_compute. split; reflexivity.
Defined.

Lemma proof_reads_upload_witness :
  @createStorageProof acceptingWorld afterNegotiation scenarioEntry 126 =
    ({| sp_ContractID := 7000; sp_WindowIndex := 0;
        sp_Segment := repeat Byte.x2a 64; sp_HashSet := [] |}, None).
Proof.
  apply (@proof_reads_upload acceptingWorld freshHost freshHost afterNegotiation
           (proposalOf [scenarioContract]) scenarioFinalized (goodSession 101) []
           ["accept"] scenarioContract 126 0 0 (repeat Byte.x2a 64) []);
    vm_compute; reflexivity.
Defined.

Lemma short_upload_aborts_witness :
  exists e',
    @NegotiateContract acceptingWorld freshHost shortSession [] =
      Return (e', ["accept"], Some "EOF") /\
    host e' = host freshHost /\
    disk e' = delete "host/0" (disk freshHost).
Proof.
  apply (@short_upload_aborts acceptingWorld freshHost freshHost
           (proposalOf [scenarioContract]) scenarioFinalized scenarioContract shortSession []).
  - reflexivity.
  - vm_compute. reflexivity.
  - reflexivity.
  - reflexivity.
  - reflexivity.
  - vm_compute. split; reflexivity.
  - vm_compute. reflexivity.
Defined.

Lemma session_keeps_registrations_witness :
  dom (Files (host freshHost)) ⊆ dom (Files (host afterNegotiation)) /\
  (Index (host afterNegotiation) = Index (host freshHost) \/
   Index (host afterNegotiation) = I64.add (Index (host freshHost)) 1) /\
  forall k, bucket (ForwardContracts (host freshHost)) k `prefix_of`
            bucket (ForwardContracts (host afterNegotiation)) k.
Proof.
  apply (@session_keeps_registrations acceptingWorld freshHost afterNegotiation
           (goodSession 101) [] ["accept"] None).
  vm_compute. reflexivity.
Defined.

Lemma early_end_stores_nothing_witness :
  host (negotiated acceptingWorld freshHost fullDiskSession) = host freshHost /\
  disk (negotiated acceptingWorld freshHost fullDiskSession) = disk freshHost.
Proof.
  apply (@early_end_stores_nothing acceptingWorld freshHost
           (negotiated acceptingWorld freshHost fullDiskSession) fullDiskSession []
           ["accept"] (Some "create: no space left on device")).
  - vm_compute. reflexivity.
  - right. right. right. discriminate.
Defined.

Lemma failed_session_keeps_host_witness :
  host (negotiated acceptingWorld freshHost (goodSession 118)) = host freshHost /\
  disk (negotiated acceptingWorld freshHost (goodSession 118)) !! "host/0" = None.
Proof.
  destruct (@failed_session_keeps_host acceptingWorld freshHost freshHost
              (negotiated acceptingWorld freshHost (goodSession 118))
              (proposalOf [scenarioContract]) scenarioFinalized (goodSession 118) []
              ["accept"] "file not uploaded in time, refusing to go forward with contract")
    as [Hhost Hdisk].
  - reflexivity.
  - vm_compute. reflexivity.
  - reflexivity.
  - vm_compute. reflexivity.
  - split; [exact Hhost|]. apply Hdisk; reflexivity.
Defined.

Lemma late_upload_rejected_witness :
  Some "file not uploaded in time, refusing to go forward with contract" <> None /\
  host (negotiated acceptingWorld freshHost (goodSession 118)) = host freshHost.
Proof.
  apply (@late_upload_rejected acceptingWorld freshHost freshHost
           (negotiated acceptingWorld freshHost (goodSession 118))
           (proposalOf [scenarioContract]) scenarioFinalized scenarioContract
           (goodSession 118) [] ["accept"]).
  - reflexivity.
  - vm_compute. reflexivity.
  - reflexivity.
  - vm_compute. discriminate.
  - vm_compute. reflexivity.
Defined.

Lemma failed_entries_dropped_witness :
  let e' := (@applyBlock acceptingWorld afterDiskLoss 126 []).1 in
  ForwardContracts (host e') = delete 126 (ForwardContracts (host afterDiskLoss)) /\
  BackwardContracts (host e') = BackwardContracts (host afterDiskLoss) /\
  (@applyBlock acceptingWorld afterDiskLoss 126 []).2 = [].
Proof.
  apply (@failed_entries_dropped acceptingWorld afterDiskLoss 126 []).
  intros ce Hin. vm_compute in Hin. destruct Hin as [<-|[]]. vm_compute. reflexivity.
Defined.

Lemma reorg_after_apply_is_noop_witness :
  let e1 := (@storageProofMaintenance acceptingWorld afterNegotiation 126 [] [0; 0]).1 in
  let e2 := (@storageProofMaintenance acceptingWorld e1 128 [0] [0]).1 in
  (forall x, bucket (ForwardContracts (host e2)) x = bucket (ForwardContracts (host e1)) x) /\
  BackwardContracts (host e2) = BackwardContracts (host e1).
Proof.
  apply (@reorg_after_apply_is_noop acceptingWorld afterNegotiation 126 [0; 0] [0] [0]).
  - discriminate.
  - reflexivity.
  - intros k ce. rewrite afterNegotiation_forward. unfold bucket.
    destruct (decide (k = 126)) as [->|Hk].
    + rewrite lookup_singleton_eq. intros [<-|[]]. vm_compute. split; [discriminate|reflexivity].
    + rewrite lookup_singleton_ne by congruence. intros [].
  - reflexivity.
  - simpl. repeat constructor.
Defined.

Lemma maintenance_split_witness :
  let e1 := (@storageProofMaintenance acceptingWorld afterNegotiation 126 [] [0]).1 in
  host (@storageProofMaintenance acceptingWorld e1 127 [] [0]).1 =
  host (@storageProofMaintenance acceptingWorld afterNegotiation 126 [] [0; 0]).1.
Proof.
  apply (@maintenance_split acceptingWorld afterNegotiation 126 [0] [0]).
  reflexivity.
Defined.

Lemma reachable_space_is_total_witness :
  SpaceRemaining (host afterNegotiation) =
  I64.wrap (TotalStorage (Settings (host afterNegotiation))).
Proof.
  apply (@reachable_space_is_total acceptingWorld afterNegotiation).
  apply afterNegotiation_reachable.
Defined.

Section Lifecycle.
Context `{External}.

(** A session leaves the host alone or registers one file under the next
    index. *)
Lemma session_host_cases (e e' : Environment) (s : Session) (data : list Byte.byte)
    (sent : list string) (r : option error) :
  NegotiateContract e s data = Return (e', sent, r) ->
  (Files (host e') = Files (host e) /\ Index (host e') = Index (host e)) \/
  exists root,
    Files (host e') = <[root := pretty (Index (host e))]> (Files (host e)) /\
    Index (host e') = I64.add (Index (host e)) 1.
Proof.
  unfold NegotiateContract. intros Hn.
  destruct (Unmarshal data) as [t0 [err|]]; [injection Hn as <- _ _; auto|].
  destruct (considerContract e t0) as [[[e1 t1] [reason|]]|msg] eqn:Hc; [| |discriminate];
    apply considerContract_frame in Hc as (Hh & _).
  - injection Hn as <- _ _. rewrite Hh. auto.
  - unfold abort_upload in Hn.
    repeat match type of Hn with
           | context [match ?x with _ => _ end] =>
               match x with
               | context [match _ with _ => _ end] => fail 1
               | _ => destruct x
               end
           end;
      try discriminate; injection Hn as <- _ _; cbn; rewrite Hh; eauto.
Qed.

(** X22.  Storage locations are fresh.  Suppose the index counter is
    non-negative and below the largest int, every recorded file name is the
    decimal form of an index below the counter, and no two roots share a
    name.  Then the name a session stores its upload under is not the name
    of any recorded file; and after the session, however it ended, the
    counter is the old one or the old one plus one (so still non-negative),
    every recorded file name is the decimal form of an index below the new
    counter, and no two roots share a name. *)
Theorem session_keeps_names_fresh (e e' : Environment) (s : Session) (data : list Byte.byte)
    (sent : list string) (r : option error) :
  NegotiateContract e s data = Return (e', sent, r) ->
  0 <= Index (host e) < 2 ^ 63 - 1 ->
  (forall root name, Files (host e) !! root = Some name ->
     exists i, 0 <= i < Index (host e) /\ name = pretty i) ->
  (forall r1 r2 name, Files (host e) !! r1 = Some name -> Files (host e) !! r2 = Some name ->
     r1 = r2) ->
  (forall root name, Files (host e) !! root = Some name -> name <> pretty (Index (host e))) /\
  (Index (host e') = Index (host e) \/ Index (host e') = Index (host e) + 1) /\
  (forall root name, Files (host e') !! root = Some name ->
     exists i, 0 <= i < Index (host e') /\ name = pretty i) /\
  (forall r1 r2 name, Files (host e') !! r1 = Some name -> Files (host e') !! r2 = Some name ->
     r1 = r2).
Proof.
  intros Hn Hidx Hnames Hinj.
  assert (Hfresh : forall root name, Files (host e) !! root = Some name ->
            name <> pretty (Index (host e))).
  { intros root name Hl Heq. apply Hnames in Hl as (i & Hi & ->).
    apply (inj pretty) in Heq. lia. }
  split; [exact Hfresh|].
  apply session_host_cases in Hn as [[-> ->]|(root & -> & ->)].
  - split; [left; reflexivity|]. split; assumption.
  - assert (Hnext : I64.add (Index (host e)) 1 = Index (host e) + 1).
    { apply I64Facts.int64_wrap_small. unfold I64.half. lia. }
    rewrite Hnext. split; [right; reflexivity|]. split.
    + intros root' name. rewrite lookup_insert. case_decide.
      * intros [= <-]. exists (Index (host e)). split; [lia|reflexivity].
      * intros Hl. apply Hnames in Hl as (i & Hi & ->). exists i. split; [lia|reflexivity].
    + intros r1 r2 name. rewrite !lookup_insert. repeat case_decide; subst.
      * reflexivity.
      * intros [= <-] Hl. apply Hfresh in Hl. congruence.
      * intros Hl [= <-]. apply Hfresh in Hl. congruence.
      * apply Hinj.
Qed.

(** X23.  From acceptance to the first proof.  After a session that
    accepted the proposal and ended without error, let the driver apply the
    block at [Start + 6] on the resulting host.  If the proof of the new
    entry can be built there, the call submits a transaction that contains
    that proof, the entry is in the backward bucket at [Start + 6 - 6 + 1]
    afterwards, and the forward bucket at [Start + 6] is gone. *)
Theorem first_proof_submitted (e e1 e' : Environment) (t0 t1 : Transaction) (s : Session)
    (data : list Byte.byte) (sent : list string) (fc : FileContract) (b : BlockID) :
  Unmarshal data = (t0, None) ->
  considerContract e t0 = Return (e1, t1, None) ->
  NegotiateContract e s data = Return (e', sent, None) ->
  FileContracts t0 = [fc] ->
  let entry := {| ID := FileContractID t1 0; Contract := fc |} in
  let h := U64.add (Start fc) StorageProofReorgDepth in
  proofBuilt e' h entry = true ->
  let result := storageProofMaintenance e' h [] [b] in
  (exists txn, result.2 = Some txn /\
               In (createStorageProof e' entry h).1 (StorageProofs txn)) /\
  In entry (bucket (BackwardContracts (host result.1)) (backwardHeight h)) /\
  ForwardContracts (host result.1) !! h = None.
Proof.
  intros Hu Hc Hn Hfc entry h Hbuilt result.
  destruct (successful_session _ _ _ _ _ _ _ _ Hu Hc Hn)
    as (fc' & content & Hfc' & _ & _ & _ & _ & _ & _ & _ & _ & _ & _ & _ & _ & Hfwd).
  rewrite Hfc in Hfc'. injection Hfc' as <-. fold entry h in Hfwd.
  assert (Hdue : In entry (bucket (ForwardContracts (host e')) h)).
  { rewrite Hfwd, bucket_append_lookup, Z.eqb_refl. apply in_or_app. right. left. reflexivity. }
  split; [|unfold result; rewrite maintenance_one_block;
           destruct (applyBlock_schedules e' h []) as (_ & Hgone & _ & Hbw); split;
           [rewrite Hbw, Z.eqb_refl; apply in_or_app; right;
            apply List.filter_In; split; assumption|exact Hgone]].
  unfold result, storageProofMaintenance. cbn [rewindPhase applyPhase]. unfold applyBlock.
  pose proof (proveDue_proofs h (bucket (ForwardContracts (host e')) h) e' []) as Hp.
  destruct (proveDue e' h _ []) as [e2 proofs2]. cbn [snd app] in Hp. subst proofs2.
  pose proof (submitProofs_carries
                (set_host e2 (set_forward (host e2) (delete h (ForwardContracts (host e2)))))
                (map (fun ce => (createStorageProof e' ce h).1)
                   (List.filter (proofBuilt e' h) (bucket (ForwardContracts (host e')) h))))
    as Hs.
  assert (Hin : In (createStorageProof e' entry h).1
                  (map (fun ce => (createStorageProof e' ce h).1)
                     (List.filter (proofBuilt e' h) (bucket (ForwardContracts (host e')) h)))).
  { apply (in_map (fun ce => (createStorageProof e' ce h).1)).
    apply List.filter_In. split; assumption. }
  destruct (submitProofs _ _).2 as [txn|].
  - destruct Hs as (_ & Hsp & _). exists txn. split; [reflexivity|rewrite Hsp; exact Hin].
  - rewrite Hs in Hin. destruct Hin.
Qed.

End Lifecycle.

Lemma session_keeps_names_fresh_witness :
  (forall root name, Files (host afterNegotiation) !! root = Some name ->
     exists i, 0 <= i < Index (host afterNegotiation) /\ name = pretty i) /\
  (Index (host afterNegotiation) = Index (host freshHost) \/
   Index (host afterNegotiation) = Index (host freshHost) + 1).
Proof.
  destruct (@session_keeps_names_fresh acceptingWorld freshHost afterNegotiation
              (goodSession 101) [] ["accept"] None) as (_ & Hidx & Hnames & _).
  - vm_compute. reflexivity.
  - vm_compute. split; [discriminate|reflexivity].
  - intros root name Hl. vm_compute in Hl. discriminate.
  - intros r1 r2 name Hl. vm_compute in Hl. discriminate.
  - split; assumption.
Defined.

Lemma first_proof_submitted_witness :
  let result := @storageProofMaintenance acceptingWorld afterNegotiation 126 [] [0] in
  (exists txn, result.2 = Some txn /\
     In (@createStorageProof acceptingWorld afterNegotiation scenarioEntry 126).1
        (StorageProofs txn)) /\
  In scenarioEntry (bucket (BackwardContracts (host result.1)) (backwardHeight 126)) /\
  ForwardContracts (host result.1) !! 126 = None.
Proof.
  apply (@first_proof_submitted acceptingWorld freshHost freshHost afterNegotiation
           (proposalOf [scenarioContract]) scenarioFinalized (goodSession 101) []
           ["accept"] scenarioContract 0).
  - reflexivity.
  - vm_compute. reflexivity.
  - vm_compute. reflexivity.
  - reflexivity.
  - vm_compute. reflexivity.
Defined.

(** * One applied block, in full; reorganizations of a host in step *)

Section Scheduling.
Context `{External}.

(** C6 (amended).  What applying one block at height [h] does to the two
    schedules, for every environment.  Let [due] be the forward bucket at
    [h].  Afterwards the forward bucket at [h] no longer exists; every other
    forward bucket [k] is its old content followed by exactly those entries
    of [due], in order, whose proof was built and for which
    [h + ChallengeWindow] is [k] and is below the contract's end; the
    backward bucket at [h - 6 + 1] is its old content followed by exactly
    the entries of [due] whose proof was built, in order; and every other
    backward bucket is unchanged.  An entry of [due] whose proof could not
    be built is therefore appended to neither schedule and is gone with the
    bucket.  Heights are [uint64] sums; the driver called with this one
    applied block leaves this host. *)
Theorem applied_block_reschedules (e : Environment) (h : BlockHeight)
    (proofs : list StorageProof) :
  let e' := (applyBlock e h proofs).1 in
  let due := bucket (ForwardContracts (host e)) h in
  let proved := List.filter (proofBuilt e h) due in
  let reinserted (k : BlockHeight) :=
    List.filter (fun ce => proofBuilt e h ce && (nextProofHeight h ce =? k)
                           && (k <? End_ (Contract ce))) due in
  ForwardContracts (host e') !! h = None /\
  (forall k, k <> h ->
     bucket (ForwardContracts (host e')) k =
     bucket (ForwardContracts (host e)) k ++ reinserted k) /\
  (forall k, bucket (BackwardContracts (host e')) k =
     bucket (BackwardContracts (host e)) k ++ (if k =? backwardHeight h then proved else [])) /\
  (forall ce, In ce proved <-> In ce due /\ proofBuilt e h ce = true) /\
  (forall k ce, In ce (reinserted k) <->
     In ce due /\ proofBuilt e h ce = true /\
     nextProofHeight h ce = k /\ k < End_ (Contract ce)) /\
  backwardHeight h = U64.wrap (h - StorageProofReorgDepth + 1) /\
  (forall ce, nextProofHeight h ce = U64.wrap (h + ChallengeWindow (Contract ce))) /\
  (forall b, host (storageProofMaintenance e h [] [b]).1 = host e').
Proof.
  cbv zeta.
  destruct (applyBlock_schedules e h proofs) as (_ & Hgone & Hfw & Hbw).
  split; [exact Hgone|]. split; [exact Hfw|]. split; [exact Hbw|].
  split; [intros ce; apply List.filter_In|]. split.
  - intros k ce. rewrite List.filter_In, !andb_true_iff, Z.eqb_eq, Z.ltb_lt. tauto.
  - split; [apply backwardHeight_eq|]. split; [reflexivity|].
    intros b. rewrite maintenance_one_block. unfold applyBlock.
    pose proof (proveDue_wallet h (bucket (ForwardContracts (host e)) h) e [] proofs (wallet e))
      as Hw.
    rewrite set_wallet_id in Hw.
    destruct (proveDue e h _ proofs) as [e1 p1]. destruct (proveDue e h _ []) as [e0 p0].
    cbn [fst] in Hw. subst e1. reflexivity.
Qed.

(** ** Reorganizations of a host in step with the chain *)

(** A session leaves the forward schedule alone or appends the one entry
    of its proposal's first contract, and then the lateness check passed. *)
Lemma session_forward_cases (e e' : Environment) (s : Session) (data : list Byte.byte)
    (sent : list string) (r : option error) :
  NegotiateContract e s data = Return (e', sent, r) ->
  ForwardContracts (host e') = ForwardContracts (host e) \/
  exists fc rest id,
    FileContracts (Unmarshal data).1 = fc :: rest /\
    height_after_upload s < U64.sub (Start fc) 2 /\
    ForwardContracts (host e') =
      bucket_append (ForwardContracts (host e)) (U64.add (Start fc) StorageProofReorgDepth)
        {| ID := id; Contract := fc |}.
Proof.
  unfold NegotiateContract. intros Hn.
  destruct (Unmarshal data) as [t0 [err|]]; [injection Hn as <- _ _; auto|].
  cbn [fst].
  destruct (considerContract e t0) as [[[e1 t1] [reason|]]|msg] eqn:Hc; [| |discriminate];
    apply considerContract_frame in Hc as (Hh & _ & _ & _ & Hfc1).
  - injection Hn as <- _ _. rewrite Hh. auto.
  - rewrite Hfc1 in Hn. unfold abort_upload in Hn.
    destruct (conn_write s AcceptContractResponse);
      [injection Hn as <- _ _; rewrite Hh; auto|].
    destruct (create_result s); [injection Hn as <- _ _; rewrite Hh; auto|].
    destruct (FileContracts t0) as [|fc rest]; [discriminate|].
    destruct (copyN s _) as [content [cerr|]];
      [injection Hn as <- _ _; cbn; rewrite Hh; auto|].
    destruct (seek_result s); [injection Hn as <- _ _; cbn; rewrite Hh; auto|].
    destruct (ReaderMerkleRoot _ _) as [root [merr|]];
      [injection Hn as <- _ _; cbn; rewrite Hh; auto|].
    destruct (negb _); [injection Hn as <- _ _; cbn; rewrite Hh; auto|].
    cbn [height set_height] in Hn.
    destruct (Z.leb_spec (U64.sub (Start fc) 2) (height_after_upload s)) as [Hl|Hl];
      [injection Hn as <- _ _; cbn; rewrite Hh; auto|].
    destruct (AcceptTransaction t1); [injection Hn as <- _ _; cbn; rewrite Hh; auto|].
    injection Hn as <- _ _. right. exists fc, rest, (FileContractID t1 0).
    cbn. rewrite Hh. auto.
Qed.

(** On a host in step with the chain at [H0] no forward bucket below [H0]
    holds an entry, and heights and windows are below 2^63. *)
Lemma in_sync_processed (e : Environment) (H0 : BlockHeight) :
  in_sync e H0 ->
  0 <= H0 < 2 ^ 63 /\
  (forall x, 0 <= x < H0 -> bucket (ForwardContracts (host e)) x = []) /\
  (forall k ce, In ce (bucket (ForwardContracts (host e)) k) ->
     0 <= ChallengeWindow (Contract ce) < 2 ^ 63).
Proof.
  induction 1 as [e H0 Hcreate Hrange
                 |e H0 ha _ IH
                 |e H0 h _ IH
                 |e e' H0 s data sent err _ IH Hat Hwf Hn
                 |e H0 rw ap _ IH Hrw Hmax].
  - rewrite Hcreate. split; [exact Hrange|]. split; [reflexivity|]. intros k ce [].
  - exact IH.
  - exact IH.
  - destruct IH as (Hrange & Hbelow & Hwin). split; [exact Hrange|].
    apply session_forward_cases in Hn as [->|(fc & rest & id & Hfc & Hlate & ->)];
      [split; assumption|].
    destruct (Hwf fc rest Hfc) as [Hstart Hw].
    assert (Hsub : U64.sub (Start fc) 2 = Start fc - 2).
    { apply U64Facts.wrap_small. unfold U64.in_range, U64.modulus. lia. }
    assert (Hadd : U64.add (Start fc) StorageProofReorgDepth = Start fc + 6).
    { apply U64Facts.add_small. unfold U64.in_range, U64.modulus, StorageProofReorgDepth. lia. }
    rewrite Hsub in Hlate. rewrite Hadd. split.
    + intros x Hx. rewrite bucket_append_lookup, Hbelow by exact Hx.
      destruct (Z.eqb_spec x (Start fc + 6)); [lia|reflexivity].
    + intros k ce. rewrite bucket_append_lookup. intros Hin.
      apply in_app_or in Hin as [Hin|Hin]; [eauto|].
      destruct (k =? Start fc + 6); [|destruct Hin].
      destruct Hin as [<-|[]]. exact Hw.
  - destruct IH as (Hrange & Hbelow & Hwin).
    set (r := Z.of_nat (length rw)) in *. set (a := Z.of_nat (length ap)) in *.
    assert (Hr : 0 <= r) by (unfold r; lia). assert (Ha : 0 <= a) by (unfold a; lia).
    split; [lia|]. unfold storageProofMaintenance.
    assert (Hh1 : (rewindPhase e H0 rw []).1 = H0 - r).
    { destruct rw as [|b rest]; [cbn; unfold r; cbn; lia|].
      rewrite rewindPhase_height by discriminate. fold r.
      apply U64Facts.wrap_small. unfold U64.in_range, U64.modulus. lia. }
    destruct (rewindPhase e H0 rw []) as [h1 proofs1]. cbn [fst] in Hh1. subst h1.
    pose proof (applyPhase_clears ap e (H0 - r) 0 proofs1 ltac:(lia) ltac:(fold a; lia) Hwin
                  ltac:(intros; apply Hbelow; lia)) as Hclear.
    pose proof (applyPhase_moves ap e (H0 - r) proofs1) as [Hmoves _].
    destruct (applyPhase e (H0 - r) ap proofs1) as [[e2 h2] proofs2].
    cbn [fst] in Hclear, Hmoves. rewrite submitProofs_host. split.
    + intros x Hx. apply Hclear. fold a. lia.
    + intros k ce Hin. apply Hmoves in Hin as [k' Hin]. eauto.
Qed.


End Scheduling.

Lemma applied_block_reschedules_witness :
  let e' := (@applyBlock acceptingWorld afterNegotiation 126 []).1 in
  bucket (BackwardContracts (host e')) 121 = [scenarioEntry] /\
  bucket (ForwardContracts (host e')) 136 = [scenarioEntry] /\
  ForwardContracts (host e') !! 126 = None.
Proof.
  destruct (@applied_block_reschedules acceptingWorld afterNegotiation 126 [])
    as (Hgone & Hfw & Hbw & _).
  split; [rewrite Hbw; vm_compute; reflexivity|].
  split; [rewrite Hfw by discriminate; vm_compute; reflexivity|exact Hgone].
Defined.

(** The scenario host, negotiated while the chain was at 101, is in step
    with the chain at 101; driven through the blocks 101 to 126 it is in
    step at 127, where the first proof has been submitted. *)
Lemma afterNegotiation_in_sync : @in_sync acceptingWorld afterNegotiation 101.
Proof.
  apply (@sync_negotiate acceptingWorld freshHost afterNegotiation 101 (goodSession 101) []
           ["accept"] None).
  - apply sync_settings, sync_create; [reflexivity|]. split; [discriminate|reflexivity].
  - reflexivity.
  - intros fc rest [= <- _]. vm_compute. repeat split; discriminate.
  - vm_compute. reflexivity.
Qed.


(** On that host the entry has been proved once: it waits in the forward
    bucket at 136 and is kept in the backward bucket at 121. *)
Example driven_scenario :
  let e1 := (@storageProofMaintenance acceptingWorld afterNegotiation 101 [] (repeat 0 26)).1 in
  bucket (ForwardContracts (host e1)) 136 = [scenarioEntry] /\
  bucket (BackwardContracts (host e1)) 121 = [scenarioEntry] /\
  ForwardContracts (host e1) !! 126 = None.
Proof. vm_compute. repeat split; reflexivity. Qed.
